(** * The fusion search of edith3.py and edith.py

    A shallow embedding of the two scripts of the repository:

    - [Edith3] is src/edith3.py, the variant without external libraries;
    - [Edith] is src/edith.py, the variant that keeps its population in
      pandas data frames, taken at the level of its rows.

    Python strings are [string]s (characters are code points below 256),
    Python lists are [list]s, and the sentinels of the scripts ("_unfit",
    "_fit", "IMPOSSIBLE") are ordinary strings, as they are in the source. *)

From Stdlib Require Import String Ascii List Arith ZArith Lia Bool DecimalString.
Import ListNotations.
Local Open Scope string_scope.
Local Open Scope list_scope.

(** ** Python built-ins used by the scripts *)

Module Py.

(** [len(s)] *)
Definition len (s : string) : nat := String.length s.

(** [not s] for a string: true exactly on the empty string. *)
Definition is_empty (s : string) : bool :=
  match s with
  | EmptyString => true
  | String _ _ => false
  end.

(** [a.startswith(b)] *)
Definition startswith (a b : string) : bool := String.prefix b a.

(** [s[n:]] for [n >= 0] *)
Fixpoint slice_from (n : nat) (s : string) : string :=
  match n, s with
  | 0, _ => s
  | S _, EmptyString => EmptyString
  | S n', String _ s' => slice_from n' s'
  end.

(** [s[0]] where the index may be out of range *)
Definition first_char (s : string) : option ascii := String.get 0 s.

Section Sorting.
Context {X : Type}.
(** [lt x y] is [key(x) < key(y)]. *)
Variable lt : X -> X -> bool.

Fixpoint insert (x : X) (l : list X) : list X :=
  match l with
  | [] => [x]
  | y :: l' => if lt y x then y :: insert x l' else x :: l
  end.

(** [sorted(l, key=...)]: a stable sort; an element stays in front of
    the later elements whose key is not smaller. *)
Definition sorted (l : list X) : list X := fold_right insert [] l.
End Sorting.

(** [key=len] *)
Definition lt_len (s t : string) : bool := (len s <? len t)%nat.

(** [key=lambda s: (len(s), s)]: tuples compare component by component. *)
Definition lt_len_then_text (s t : string) : bool :=
  (len s <? len t)%nat || ((len s =? len t)%nat && String.ltb s t).

Definition newline : ascii := "010"%char.

(** [c.isspace()] on the code points below 256 *)
Definition isspace (c : ascii) : bool :=
  let n := nat_of_ascii c in
  ((9 <=? n)%nat && (n <=? 13)%nat) || ((28 <=? n)%nat && (n <=? 32)%nat)
  || (n =? 133)%nat || (n =? 160)%nat.

(** The pieces of [s] between the characters that satisfy [p]; there is
    always at least one piece. *)
Fixpoint pieces (p : ascii -> bool) (s : string) : list string :=
  match s with
  | EmptyString => [EmptyString]
  | String c s' =>
      if p c then EmptyString :: pieces p s'
      else match pieces p s' with
           | h :: t => String c h :: t
           | [] => [String c EmptyString]
           end
  end.

(** No character of [s] satisfies [p]. *)
Fixpoint free_of (p : ascii -> bool) (s : string) : Prop :=
  match s with
  | EmptyString => True
  | String c s' => p c = false /\ free_of p s'
  end.

(** [s.split("\n")] *)
Definition split_newline (s : string) : list string :=
  pieces (Ascii.eqb newline) s.

(** [s.split()]: runs of whitespace separate, no empty token is kept. *)
Definition split (s : string) : list string :=
  filter (fun t => negb (is_empty t)) (pieces isspace s).

(** [s.replace("\n", "")] *)
Fixpoint remove_newlines (s : string) : string :=
  match s with
  | EmptyString => EmptyString
  | String c s' =>
      if Ascii.eqb c newline then remove_newlines s'
      else String c (remove_newlines s')
  end.

(** ["\n".join(ls)] *)
Definition join_newline (ls : list string) : string :=
  String.concat (String newline EmptyString) ls.

(** The order of the key [(len(s), s)], as a proposition: [s] is
    shorter than [t], or as long and not after it. *)
Definition shorter_or_earlier (s t : string) : Prop :=
  len s < len t \/ (len s = len t /\ String.leb s t = true).

(** Two lists with the same elements, in any order and any number. *)
Definition same_elements {X : Type} (l l' : list X) : Prop :=
  forall x, In x l <-> In x l'.

(** A line as the input delivers it, with its end of line. *)
Definition text_line (s : string) : string :=
  (s ++ String newline EmptyString)%string.

Inductive exn : Type :=
| ValueError
| StopIteration
| IndexError
| RuntimeError.

End Py.

(** ** src/edith3.py *)

Module Edith3.
Import Py.

Definition UNFIT : string := "_unfit".
Definition IMPOSSIBLE : string := "IMPOSSIBLE".

(** A gene is the pair [new_genes[0]], [new_genes[1]]. *)
Definition gene : Type := string * string.

(** A chromosome is the tuple returned by [get_fitness]: the sequence
    and the two-element dominance list. *)
Definition chromosome : Type := string * (string * string).

(** Lines 21-30. *)
Definition get_fitness (sequence : string) (dominance : string * string)
           (new_genes : gene) : chromosome :=
  let a := (fst dominance ++ fst new_genes)%string in
  let b := (snd dominance ++ snd new_genes)%string in
  if (10 * len sequence <? len a)%nat then (UNFIT, ("", ""))
  else if startswith a b then ((sequence ++ b)%string, (slice_from (len b) a, ""))
  else if startswith b a then ((sequence ++ a)%string, ("", slice_from (len a) b))
  else (UNFIT, ("", "")).

(** Lines 53-58: one chromosome per gene; nothing is filtered here. *)
Definition origins (genes : list gene) : list chromosome :=
  map (get_fitness "" ("", "")) genes.

Definition not_unfit (c : chromosome) : bool := negb (fst c =? UNFIT)%string.

(** The condition of lines 64-66 and 90-92. *)
Definition closed (c : chromosome) : bool :=
  not_unfit c && is_empty (fst (snd c)) && is_empty (snd (snd c)).

Definition catch_survivors (chromosomes : list chromosome) : list string :=
  map fst (filter closed chromosomes).

(** Lines 78-79: [not survivors or len(c[0]) < len(sorted(survivors, key=len)[0])].
    The sorted list of a non-empty list has a first element, so the
    default of [hd] is never read. *)
Definition may_mutate (survivors : list string) (c : chromosome) : bool :=
  match survivors with
  | [] => true
  | _ :: _ => (len (fst c) <? len (hd EmptyString (sorted lt_len survivors)))%nat
  end.

(** Lines 74-80: the pairs [(c, g)] that pass the condition. *)
Definition mutations (genes : list gene) (survivors : list string)
           (chromosomes : list chromosome) : list (chromosome * gene) :=
  flat_map (fun c =>
    flat_map (fun g => if may_mutate survivors c then [(c, g)] else []) genes)
    chromosomes.

Definition population : Type := list chromosome * list string.

(** Lines 72-93: the body of the loop over the ages. *)
Definition age_step (genes : list gene) (st : population) : population :=
  let (chromosomes, survivors) := st in
  let offspring :=
    map (fun m => get_fitness (fst (fst m)) (snd (fst m)) (snd m))
        (mutations genes survivors chromosomes) in
  let chromosomes' := filter not_unfit offspring in
  (chromosomes', survivors ++ catch_survivors chromosomes').

(** Lines 53-67: the chromosomes and the survivors before the first age. *)
Definition origin_population (genes : list gene) : population :=
  (origins genes, catch_survivors (origins genes)).

(** [for age in range(ages)]: the state after the loop, and the number
    of times its body was run. *)
Definition run_ages (genes : list gene) (ages : nat) (st : population)
  : population * nat :=
  fold_left (fun acc _ => (age_step genes (fst acc), S (snd acc)))
            (seq 0 ages) (st, 0).

(** The chromosomes held after [k] ages; the origins for [k = 0]. *)
Definition chromosomes_at (genes : list gene) (k : nat) : list chromosome :=
  fst (fst (run_ages genes k (origin_population genes))).

(** The survivors at the end of the loop. *)
Definition survivor_pool (genes : list gene) (ages : nat) : list string :=
  snd (fst (run_ages genes ages (origin_population genes))).

(** Lines 96-97. *)
Definition final_survivor (survivors : list string) : string :=
  match sorted lt_len_then_text survivors with
  | s :: _ => s
  | [] => IMPOSSIBLE
  end.

Definition solve (genes : list gene) (ages : nat) : string :=
  final_survivor (survivor_pool genes ages).

(** Line 36. *)
Definition ages : nat := 8.

(** [new_genes[0]] and [new_genes[1]] on the list that [line.split()]
    returns: lines 22-23 read both before anything else. *)
Definition gene_of_tokens (tokens : list string) : exn + gene :=
  match tokens with
  | a :: b :: _ => inr (a, b)
  | _ => inl IndexError
  end.

(** The two tokens that lines 22-23 read, on a list long enough. *)
Definition first_two (tokens : list string) : gene :=
  (nth 0 tokens EmptyString, nth 1 tokens EmptyString).

Fixpoint genes_of_tokens (ls : list (list string)) : exn + list gene :=
  match ls with
  | [] => inr []
  | tokens :: ls' =>
      match gene_of_tokens tokens with
      | inl e => inl e
      | inr g =>
          match genes_of_tokens ls' with
          | inl e => inl e
          | inr gs => inr (g :: gs)
          end
      end
  end.

(** Lines 42-45: [next(sys.stdin)] once per declared line. *)
Fixpoint next_lines (n : nat) (stdin : list string)
  : exn + (list string * list string) :=
  match n with
  | 0 => inr ([], stdin)
  | S n' =>
      match stdin with
      | [] => inl StopIteration
      | line :: stdin' =>
          match next_lines n' stdin' with
          | inl e => inl e
          | inr (ls, rest) => inr (remove_newlines line :: ls, rest)
          end
      end
  end.

(** Lines 49-52. *)
Definition genes_tokens (case_data : string) : list (list string) :=
  map split (split_newline case_data).

(** The tokens of the lines that a case of [n] declared lines reads. *)
Definition case_tokens (n : nat) (stdin : list string) : list (list string) :=
  map (fun l => split (remove_newlines l)) (firstn n stdin).

(** One turn of the loop of line 40 after [int(line)] has returned
    [case_length]: the answer printed for the case and the lines left on
    the input, or the exception that ends the program.  The first round
    calls [get_fitness] on every gene, so a gene with fewer than two
    tokens raises before anything is printed. *)
Definition run_case (case_length : Z) (stdin : list string)
  : exn + (string * list string) :=
  match next_lines (Z.to_nat case_length) stdin with
  | inl e => inl e
  | inr (ls, rest) =>
      match genes_of_tokens (genes_tokens (join_newline ls)) with
      | inl e => inl e
      | inr genes => inr (solve genes ages, rest)
      end
  end.

(** ["Case {}:".format(case_number + 1)] *)
Definition title (case_number : nat) : string :=
  ("Case " ++ NilEmpty.string_of_uint (Nat.to_uint (case_number + 1)) ++ ":")%string.

(** What [print(title, survivor)] writes: the two texts with a space
    between them and the end of the line. *)
Definition print_line (title survivor : string) : string :=
  (title ++ " " ++ text_line survivor)%string.

Section Main.

(** The built-in [int] on a line of the input; [None] is its ValueError. *)
Variable int : string -> option Z.

(** The loop of line 40, for at most [turns] turns: what is printed, and
    the exception that ends the program, if any.  A turn reads one line
    at least, so as many turns as the input has lines are enough. *)
Fixpoint main_loop (turns : nat) (case_number : nat) (stdin : list string)
  : list string * option exn :=
  match turns, stdin with
  | 0, _ => ([], None)
  | _, [] => ([], None)
  | S turns', line :: rest =>
      match int line with
      | None => ([], Some ValueError)
      | Some case_length =>
          match run_case case_length rest with
          | inl e => ([], Some e)
          | inr (survivor, rest') =>
              let (out, err) := main_loop turns' (S case_number) rest' in
              (print_line (title case_number) survivor :: out, err)
          end
      end
  end.

(** The script on its input. *)
Definition main (stdin : list string) : list string * option exn :=
  main_loop (List.length stdin) 0 stdin.

End Main.

(** A word of the input: not empty and without whitespace. *)
Definition word (s : string) : Prop := s <> EmptyString /\ free_of isspace s.

(** A gene of two words. *)
Definition words (g : gene) : Prop := word (fst g) /\ word (snd g).

(** A case whose count line [int] reads as the number of its genes, which
    is not zero, and whose genes are two words each. *)
Definition well_formed (int : string -> option Z) (c : string * list gene)
  : Prop :=
  snd c <> [] /\ int (fst c) = Some (Z.of_nat (List.length (snd c)))
  /\ Forall words (snd c).

(** The line of the input that holds a gene. *)
Definition gene_line (g : gene) : string :=
  text_line (fst g ++ String " "%char (snd g))%string.

(** The lines of a case: the line of its count and the lines of its genes. *)
Definition case_lines (c : string * list gene) : list string :=
  fst c :: map gene_line (snd c).

(** The lines that the script prints for cases numbered from
    [case_number]. *)
Fixpoint answers (case_number : nat) (cases : list (string * list gene))
  : list string :=
  match cases with
  | [] => []
  | c :: cases' =>
      print_line (title case_number) (solve (snd c) ages)
      :: answers (S case_number) cases'
  end.

(** The first words of a sequence of genes, one after the other, and
    the second words. *)
Definition firsts (gs : list gene) : string :=
  fold_right (fun g s => (fst g ++ s)%string) EmptyString gs.

Definition seconds (gs : list gene) : string :=
  fold_right (fun g s => (snd g ++ s)%string) EmptyString gs.

End Edith3.

(** ** src/edith.py

    A data frame is the list of its rows, a boolean mask selects the rows
    where it holds, and [df.apply(f, axis=1)] maps [f] over the rows.  The
    columns are object columns of Python strings, as [read_csv] delivers
    them for the words of a case. *)

Module Edith.
Import Py.

Definition UNFIT : string := "_unfit".
Definition FIT : string := "_fit".
Definition IMPOSSIBLE : string := "IMPOSSIBLE".

(** A row of the columns [Genes.A] and [Genes.B]. *)
Record row : Type := Row { col_A : string; col_B : string }.

(** [Population.get_fitness] on [a = row.iloc[0]], [b = row.iloc[1]]. *)
Definition get_fitness (a b : string) : string :=
  if (a =? b)%string then FIT
  else if startswith a b then slice_from (len b) a
  else UNFIT.

(** A row together with its two dominance columns. *)
Record fitted : Type := Fitted {
  chrom : row;
  A_DOMINANCE : string;
  B_DOMINANCE : string
}.

(** [__calculate_dominance]: the first [apply] reads the columns in the
    order A, B and the second in the order B, A. *)
Definition calculate_dominance (chromosomes : list row) : list fitted :=
  map (fun r => {| chrom := r;
                   A_DOMINANCE := get_fitness (col_A r) (col_B r);
                   B_DOMINANCE := get_fitness (col_B r) (col_A r) |})
      chromosomes.

Definition both_unfit (f : fitted) : bool :=
  (A_DOMINANCE f =? UNFIT)%string && (B_DOMINANCE f =? UNFIT)%string.

(** [__remove_unfit] *)
Definition remove_unfit (chromosomes : list fitted) : list fitted :=
  filter (fun f => negb (both_unfit f)) chromosomes.

Definition any_fit (f : fitted) : bool :=
  (A_DOMINANCE f =? FIT)%string || (B_DOMINANCE f =? FIT)%string.

(** The population: the rows still mutating and the survivors, which
    keep the dominance columns they were recorded with. *)
Record Population : Type := Pop {
  chromosomes : list row;
  survivors : list fitted
}.

(** [fit]: [__calculate_dominance], [__remove_unfit], [__remove_fit]. *)
Definition fit (p : Population) : Population :=
  let scored := remove_unfit (calculate_dominance (chromosomes p)) in
  {| chromosomes := map chrom (filter (fun f => negb (any_fit f)) scored);
     survivors := survivors p ++ filter any_fit scored |}.

(** [genes[A].str[0] == genes[B].str[0]]; a missing character is NaN,
    which equals nothing. *)
Definition same_first_char (r : row) : bool :=
  match first_char (col_A r), first_char (col_B r) with
  | Some x, Some y => Ascii.eqb x y
  | _, _ => false
  end.

(** [Population.__init__] *)
Definition Population_init (genes : list row) : exn + Population :=
  match genes with
  | [] => inl RuntimeError
  | _ :: _ =>
      inr (fit {| chromosomes := filter same_first_char genes;
                        survivors := [] |})
  end.

(** [mutate]: both frames get the same null key in the column of the
    merge, and pandas matches rows with a null key with each other, so the
    merge pairs every chromosome with every gene; the new columns are the
    concatenations.  [Sequence.run] calls it on a population that has
    chromosomes, and the genes are never empty. *)
Definition mutate (genes : list row) (p : Population) : Population :=
  {| chromosomes :=
       flat_map (fun c =>
         map (fun g => {| col_A := (col_A c ++ col_A g)%string;
                          col_B := (col_B c ++ col_B g)%string |}) genes)
         (chromosomes p);
     survivors := survivors p |}.

(** [series.str.len().min()]: NaN on an empty series. *)
Definition min_len (l : list string) : option nat :=
  match l with
  | [] => None
  | s :: l' => Some (fold_left Nat.min (map len l') (len s))
  end.

Definition shortest_survivor (p : Population) : option nat :=
  min_len (map (fun f => col_A (chrom f)) (survivors p)).

Definition shortest_chromosome (p : Population) : option nat :=
  min_len (map col_A (chromosomes p)).

(** [x < y] where either side may be NaN, which is below nothing. *)
Definition lt_nan (x y : option nat) : bool :=
  match x, y with
  | Some n, Some m => (n <? m)%nat
  | _, _ => false
  end.

(** The loop of [Sequence.run] with its two [break]s: the population at
    the end and the number of ages run. *)
Fixpoint run_ages (genes : list row) (ages : nat) (p : Population)
  : Population * nat :=
  match ages with
  | 0 => (p, 0)
  | S ages' =>
      let p' := fit (mutate genes p) in
      match chromosomes p' with
      | [] => (p', 1)
      | _ :: _ =>
          if lt_nan (shortest_survivor p') (shortest_chromosome p')
          then (p', 1)
          else let (q, k) := run_ages genes ages' p' in (q, S k)
      end
  end.

(** [Sequence.run] *)
Definition run (genes : list row) (ages : nat) (p : Population)
  : Population * nat :=
  match chromosomes p with
  | [] => (p, 0)
  | _ :: _ => run_ages genes ages p
  end.

Definition lt_row (f g : fitted) : bool :=
  lt_len_then_text (col_A (chrom f)) (col_A (chrom g)).

(** [get_survivor] *)
Definition get_survivor (default : string) (p : Population) : string :=
  match survivors p with
  | [] => default
  | _ :: _ =>
      match sorted lt_row (survivors p) with
      | f :: _ => col_A (chrom f)
      | [] => default
      end
  end.

(** [Sequence.__init__] and [Sequence.run]. *)
Definition Sequence_run (genes : list row) (ages : nat)
  : exn + (Population * nat) :=
  if (ages <? 1)%nat then inl ValueError
  else match Population_init genes with
       | inl e => inl e
       | inr p => inr (run genes ages p)
       end.

(** The body of the loop of [run] for one case: [ages] is [g.size]. *)
Definition solve (genes : list row) : exn + string :=
  match Sequence_run genes (List.length genes) with
  | inl e => inl e
  | inr (p, _) => inr (get_survivor IMPOSSIBLE p)
  end.

(** The A columns of a sequence of genes, one after the other, and the
    B columns. *)
Definition firsts (gs : list row) : string :=
  fold_right (fun g s => (col_A g ++ s)%string) EmptyString gs.

Definition seconds (gs : list row) : string :=
  fold_right (fun g s => (col_B g ++ s)%string) EmptyString gs.

(** The row of [__calculate_dominance] for a chromosome. *)
Definition scored (r : row) : fitted :=
  {| chrom := r;
     A_DOMINANCE := get_fitness (col_A r) (col_B r);
     B_DOMINANCE := get_fitness (col_B r) (col_A r) |}.

(** A row made of one to [m] genes of the case: its A column is their A
    columns one after the other, its B column their B columns. *)
Definition made_of (genes : list row) (m : nat) (r : row) : Prop :=
  exists gs, 1 <= List.length gs <= m /\ incl gs genes
             /\ col_A r = firsts gs /\ col_B r = seconds gs.

(** A population whose chromosomes and survivors are made of genes of
    the case, the survivors with a dominance that reads FIT. *)
Definition made_of_genes (genes : list row) (m : nat) (p : Population) : Prop :=
  (forall r, In r (chromosomes p) -> made_of genes m r)
  /\ (forall f, In f (survivors p) ->
        made_of genes m (chrom f) /\ any_fit (scored (chrom f)) = true).



End Edith.

(** ** The rule and the guard as the specification words them *)

Module Spec.
Import Py.

(** A candidate is UNFIT ([None]) or carries [built] and the residue pair. *)
Definition candidate : Type := option (string * (string * string)).

(** The unified rule of the specification, section 4.1. *)
Definition fuse_rule (built : string) (residue : string * string)
           (pair : string * string) : candidate :=
  let a := (fst residue ++ fst pair)%string in
  let b := (snd residue ++ snd pair)%string in
  if (a =? b)%string then Some ((built ++ a)%string, ("", ""))
  else if startswith b a then Some ((built ++ b)%string, ("", slice_from (len a) b))
  else if startswith a b then Some ((built ++ a)%string, (slice_from (len b) a, ""))
  else None.

(** The divergence guard of the specification:
    [len(a) > 10 * max(1, len(built))]. *)
Definition divergence_guard (built a : string) : bool :=
  (10 * Nat.max 1 (len built) <? len a)%nat.

(** How the code tells an UNFIT result from a candidate. *)
Definition candidate_of (c : Edith3.chromosome) : candidate :=
  if Edith3.not_unfit c then Some c else None.

End Spec.

Example edith3_dear :
  Edith3.solve [("dear", "dear")] Edith3.ages = "_unfitdear".
Proof. vm_compute. reflexivity. Qed.

Example edith3_chain :
  Edith3.solve [("a", "ab"); ("bcd", "cd")] Edith3.ages = "_unfitabcd".
Proof. vm_compute. reflexivity. Qed.

Example edith3_case :
  Edith3.run_case 1 [Py.text_line "a a x"] = inr ("_unfita", []).
Proof. vm_compute. reflexivity. Qed.

Example edith_dear :
  Edith.solve [Edith.Row "dear" "dear"] = inr "dear".
Proof. vm_compute. reflexivity. Qed.

Example edith_chain :
  Edith.solve [Edith.Row "a" "ab"; Edith.Row "bcd" "cd"] = inr "abcd".
Proof. vm_compute. reflexivity. Qed.

Example edith_sentinel :
  Edith.solve [Edith.Row "x_fit" "x"] = inr "x_fit".
Proof. vm_compute. reflexivity. Qed.

(** * Facts about the built-ins *)

Section StringFacts.
Import Py.

Lemma len_append (s t : string) : len (s ++ t)%string = len s + len t.
Proof.
  unfold len. induction s as [|c s IH]; simpl; [reflexivity|].
  now rewrite IH.
Qed.

Lemma append_empty_r (s : string) : (s ++ "")%string = s.
Proof.
  induction s as [|c s IH]; simpl; [reflexivity|]. now rewrite IH.
Qed.

Lemma is_empty_true (s : string) : is_empty s = true <-> s = "".
Proof. destruct s; simpl; split; intros H; congruence. Qed.

Lemma len_zero (s : string) : len s = 0 <-> s = "".
Proof. destruct s; simpl; split; intros H; congruence. Qed.

Lemma startswith_refl (a : string) : startswith a a = true.
Proof.
  unfold startswith. induction a as [|c a IH]; simpl; [reflexivity|].
  destruct (ascii_dec c c); [exact IH | congruence].
Qed.

(** [a.startswith(b)] splits [a] into [b] and [a[len(b):]]. *)
Lemma startswith_split (a b : string) :
  startswith a b = true -> a = (b ++ slice_from (len b) a)%string.
Proof.
  unfold startswith. revert a.
  induction b as [|c b IH]; intros a H; simpl.
  - reflexivity.
  - destruct a as [|d a]; simpl in H; [discriminate|].
    destruct (ascii_dec c d) as [->|]; [|discriminate].
    simpl. f_equal. now apply IH.
Qed.

Lemma startswith_append (b r : string) : startswith (b ++ r)%string b = true.
Proof.
  unfold startswith. induction b as [|c b IH]; simpl.
  - now destruct r.
  - destruct (ascii_dec c c); [exact IH | congruence].
Qed.

Lemma slice_from_append (b r : string) : slice_from (len b) (b ++ r)%string = r.
Proof. induction b as [|c b IH]; simpl; [now destruct r | exact IH]. Qed.

Lemma slice_from_all (a : string) : slice_from (len a) a = "".
Proof. induction a as [|c a IH]; simpl; [reflexivity | exact IH]. Qed.

Lemma startswith_len (a b : string) : startswith a b = true -> len b <= len a.
Proof.
  intros H. apply startswith_split in H.
  apply (f_equal len) in H. rewrite len_append in H. lia.
Qed.

Lemma startswith_antisym (a b : string) :
  startswith a b = true -> startswith b a = true -> a = b.
Proof.
  intros Hab Hba.
  pose proof (startswith_len _ _ Hab). pose proof (startswith_len _ _ Hba).
  apply startswith_split in Hab.
  assert (Hr : len (slice_from (len b) a) = 0).
  { assert (len a = len b + len (slice_from (len b) a))
      by (rewrite Hab at 1; apply len_append). lia. }
  apply len_zero in Hr. rewrite Hr, append_empty_r in Hab. exact Hab.
Qed.

Lemma append_not_self (p s : string) : p <> "" -> (p ++ s)%string <> s.
Proof.
  intros Hp E. apply (f_equal len) in E. rewrite len_append in E.
  apply Hp, len_zero. lia.
Qed.

Lemma append_eq_self_l (p s : string) : (p ++ s)%string = p -> s = "".
Proof.
  intros E. apply (f_equal len) in E. rewrite len_append in E.
  apply len_zero. lia.
Qed.

End StringFacts.

(** The order of the characters and of the strings is transitive. *)

Lemma ascii_compare_lt_trans (a b c : ascii) :
  Ascii.compare a b = Lt -> Ascii.compare b c = Lt -> Ascii.compare a c = Lt.
Proof.
  unfold Ascii.compare. rewrite !N.compare_lt_iff. lia.
Qed.

Lemma ascii_compare_refl (a : ascii) : Ascii.compare a a = Eq.
Proof. unfold Ascii.compare. apply N.compare_refl. Qed.

Lemma string_compare_refl (s : string) : String.compare s s = Eq.
Proof.
  induction s as [|c s IH]; simpl; [reflexivity|].
  now rewrite ascii_compare_refl.
Qed.

Lemma string_compare_lt_trans (s t u : string) :
  String.compare s t = Lt -> String.compare t u = Lt -> String.compare s u = Lt.
Proof.
  revert t u. induction s as [|a s IH]; intros [|b t] [|c u]; simpl;
    try congruence.
  destruct (Ascii.compare a b) eqn:Hab; try discriminate;
    destruct (Ascii.compare b c) eqn:Hbc; try discriminate; intros H1 H2.
  - apply Ascii.compare_eq_iff in Hab, Hbc. subst.
    rewrite ascii_compare_refl. eauto.
  - apply Ascii.compare_eq_iff in Hab. subst. now rewrite Hbc.
  - apply Ascii.compare_eq_iff in Hbc. subst. now rewrite Hab.
  - now rewrite (ascii_compare_lt_trans _ _ _ Hab Hbc).
Qed.

Lemma string_ltb_false_leb (s t : string) :
  String.ltb s t = false <-> String.leb t s = true.
Proof.
  unfold String.ltb, String.leb. rewrite (String.compare_antisym t s).
  destruct (String.compare s t); simpl; split; congruence.
Qed.

Lemma string_leb_trans (s t u : string) :
  String.leb s t = true -> String.leb t u = true -> String.leb s u = true.
Proof.
  unfold String.leb.
  destruct (String.compare s t) eqn:Hst; try discriminate;
    destruct (String.compare t u) eqn:Htu; try discriminate; intros _ _.
  - apply String.compare_eq_iff in Hst, Htu. subst.
    now rewrite string_compare_refl.
  - apply String.compare_eq_iff in Hst. subst. now rewrite Htu.
  - apply String.compare_eq_iff in Htu. subst. now rewrite Hst.
  - now rewrite (string_compare_lt_trans _ _ _ Hst Htu).
Qed.

Lemma lt_len_then_text_false (s t : string) :
  Py.lt_len_then_text t s = false <-> Py.shorter_or_earlier s t.
Proof.
  unfold Py.lt_len_then_text, Py.shorter_or_earlier.
  rewrite orb_false_iff, andb_false_iff, Nat.ltb_ge, Nat.eqb_neq,
    string_ltb_false_leb.
  split.
  - intros [H1 [H2|H2]]; [left; lia|].
    destruct (Nat.eq_dec (Py.len s) (Py.len t)); [right; auto | left; lia].
  - intros [H|[H1 H2]]; (split; [lia|]); [left; lia | right; exact H2].
Qed.

Lemma shorter_or_earlier_trans (s t u : string) :
  Py.shorter_or_earlier s t -> Py.shorter_or_earlier t u -> Py.shorter_or_earlier s u.
Proof.
  unfold Py.shorter_or_earlier.
  intros [H1|[H1 H1']] [H2|[H2 H2']]; try (left; lia).
  right. split; [lia|]. eapply string_leb_trans; eauto.
Qed.

(** * Facts about [sorted] *)

Section SortedFacts.
Import Py.
Context {X : Type} (lt : X -> X -> bool).

Lemma insert_length (x : X) (l : list X) :
  List.length (insert lt x l) = S (List.length l).
Proof.
  induction l as [|y l IH]; simpl; [reflexivity|].
  destruct (lt y x); simpl; [now rewrite IH | reflexivity].
Qed.

Lemma sorted_length (l : list X) : List.length (sorted lt l) = List.length l.
Proof.
  induction l as [|x l IH]; simpl; [reflexivity|].
  now rewrite insert_length, IH.
Qed.

Lemma insert_In (x y : X) (l : list X) :
  In y (insert lt x l) <-> y = x \/ In y l.
Proof.
  induction l as [|z l IH]; simpl.
  - intuition.
  - destruct (lt z x); simpl; rewrite ?IH; intuition.
Qed.

Lemma sorted_In (y : X) (l : list X) : In y (sorted lt l) <-> In y l.
Proof.
  induction l as [|x l IH]; simpl; [reflexivity|].
  rewrite insert_In, IH. intuition.
Qed.

Lemma sorted_nil (l : list X) : sorted lt l = [] -> l = [].
Proof.
  intros H. apply (f_equal (@List.length X)) in H.
  rewrite sorted_length in H. now destruct l.
Qed.

Hypothesis lt_asym : forall x y, lt x y = true -> lt y x = false.
Hypothesis le_trans :
  forall x y z, lt y x = false -> lt z y = false -> lt z x = false.

Lemma lt_irrefl (x : X) : lt x x = false.
Proof.
  destruct (lt x x) eqn:E; [|reflexivity].
  now rewrite (lt_asym _ _ E) in E.
Qed.

(** The head of the sorted list is an element below which there is none. *)
Lemma sorted_head_least (l : list X) (h : X) (t : list X) :
  sorted lt l = h :: t ->
  In h l /\ forall x, In x l -> lt x h = false.
Proof.
  revert h t. induction l as [|a l IH]; intros h t; simpl; [discriminate|].
  destruct (sorted lt l) as [|y r] eqn:E; simpl.
  - apply sorted_nil in E. subst l. intros [= <- _].
    split; [now left|]. intros x [<-|[]]. apply lt_irrefl.
  - destruct (IH y r eq_refl) as [Hy Hmin].
    destruct (lt y a) eqn:Hya; intros [= <- _].
    + split; [now right|].
      intros x [<-|Hx]; [now apply lt_asym | now apply Hmin].
    + split; [now left|].
      intros x [<-|Hx]; [apply lt_irrefl|].
      eapply le_trans; [exact Hya | now apply Hmin].
Qed.

End SortedFacts.

Lemma lt_len_asym (s t : string) : Py.lt_len s t = true -> Py.lt_len t s = false.
Proof. unfold Py.lt_len. rewrite Nat.ltb_lt, Nat.ltb_ge. lia. Qed.

Lemma lt_len_le_trans (s t u : string) :
  Py.lt_len t s = false -> Py.lt_len u t = false -> Py.lt_len u s = false.
Proof. unfold Py.lt_len. rewrite !Nat.ltb_ge. lia. Qed.

Lemma lt_len_then_text_asym (s t : string) :
  Py.lt_len_then_text s t = true -> Py.lt_len_then_text t s = false.
Proof.
  intros H. apply lt_len_then_text_false.
  unfold Py.lt_len_then_text in H. unfold Py.shorter_or_earlier.
  apply orb_true_iff in H as [H|H].
  - apply Nat.ltb_lt in H. now left.
  - apply andb_true_iff in H as [H1 H2]. apply Nat.eqb_eq in H1.
    right. split; [exact H1|].
    unfold String.ltb in H2. unfold String.leb.
    destruct (String.compare s t); congruence.
Qed.

Lemma lt_len_then_text_le_trans (s t u : string) :
  Py.lt_len_then_text t s = false -> Py.lt_len_then_text u t = false ->
  Py.lt_len_then_text u s = false.
Proof.
  rewrite !lt_len_then_text_false. apply shorter_or_earlier_trans.
Qed.

(** * The fusion step of edith3.py *)

Section FusionStep.
Import Py Edith3.

Lemma get_fitness_guard (sequence : string) (dominance : string * string)
      (new_genes : gene) :
  10 * len sequence < len (fst dominance ++ fst new_genes)%string ->
  get_fitness sequence dominance new_genes = (UNFIT, ("", "")).
Proof.
  intros H. unfold get_fitness. apply Nat.ltb_lt in H. now rewrite H.
Qed.

(** Without a sequence, any non-empty [a] is beyond the bound. *)
Lemma seed_unfit (A B : string) :
  A <> "" -> get_fitness "" ("", "") (A, B) = (UNFIT, ("", "")).
Proof.
  intros HA. apply get_fitness_guard. simpl.
  destruct A; [congruence | simpl; lia].
Qed.

(** So the origins of genes with a non-empty first word hold no
    survivor. *)
Lemma origins_catch_nothing (genes : list gene) :
  Forall (fun g => fst g <> "") genes ->
  catch_survivors (origins genes) = [].
Proof.
  induction 1 as [|[A B] genes HA _ IH]; [reflexivity|].
  unfold catch_survivors, origins in *. cbn [map fst] in *.
  rewrite (seed_unfit A B HA). cbn. exact IH.
Qed.

(** With a sequence, the bound of the code is the bound of the
    specification. *)
Lemma guard_with_sequence (sequence a : string) :
  sequence <> "" ->
  (10 * len sequence <? len a)%nat = Spec.divergence_guard sequence a.
Proof.
  intros H. unfold Spec.divergence_guard.
  assert (0 < len sequence) by (destruct sequence; [congruence | simpl; lia]).
  now rewrite Nat.max_r by lia.
Qed.

End FusionStep.

(** C1, as the claim words it, fails: when [b] is a proper prefix of [a] the
    code appends [b], the shorter side, to the sequence, where the rule of
    the specification appends [a]. *)
Lemma fusion_rule_counterexample :
  Edith3.get_fitness "xy" ("", "") ("ab", "a") = ("xya", ("b", ""))
  /\ Spec.fuse_rule "xy" ("", "") ("ab", "a") = Some ("xyab", ("b", ""))
  /\ Spec.candidate_of (Edith3.get_fitness "xy" ("", "") ("ab", "a"))
     <> Spec.fuse_rule "xy" ("", "") ("ab", "a").
Proof. repeat split. vm_compute. discriminate. Qed.

(** C1, amended: when the guard of line 24 does not fire, the fusion step
    with [a = leftA + A] and [b = leftB + B] closes on [a = b] with the
    sequence extended by [a]; when one side is a proper prefix of the other
    it extends the sequence by the shorter side and leaves the rest of the
    longer side as the residue of that side; otherwise it is UNFIT. *)
Theorem get_fitness_appends_shorter_side :
  forall (built leftA leftB A B : string),
    let a := (leftA ++ A)%string in
    let b := (leftB ++ B)%string in
    Py.len a <= 10 * Py.len built ->
    (a = b ->
     Edith3.get_fitness built (leftA, leftB) (A, B)
     = ((built ++ a)%string, ("", "")))
    /\ (a <> b -> Py.startswith b a = true ->
        Edith3.get_fitness built (leftA, leftB) (A, B)
        = ((built ++ a)%string, ("", Py.slice_from (Py.len a) b)))
    /\ (a <> b -> Py.startswith a b = true ->
        Edith3.get_fitness built (leftA, leftB) (A, B)
        = ((built ++ b)%string, (Py.slice_from (Py.len b) a, "")))
    /\ (Py.startswith a b = false -> Py.startswith b a = false ->
        Edith3.get_fitness built (leftA, leftB) (A, B)
        = (Edith3.UNFIT, ("", ""))).
Proof.
  intros built leftA leftB A B a b Hguard.
  assert (G : (10 * Py.len built <? Py.len a)%nat = false)
    by (apply Nat.ltb_ge; exact Hguard).
  unfold Edith3.get_fitness; cbn [fst snd]. fold a b. rewrite G.
  repeat split.
  - intros <-. now rewrite startswith_refl, slice_from_all.
  - intros Hne Hba.
    destruct (Py.startswith a b) eqn:Hab.
    + exfalso. apply Hne. now apply startswith_antisym.
    + now rewrite Hba.
  - intros _ Hab. now rewrite Hab.
  - intros Hab Hba. now rewrite Hab, Hba.
Qed.

Lemma get_fitness_appends_shorter_side_witness :
  Edith3.get_fitness "xy" ("", "") ("a", "ab") = ("xya", ("", "b")).
Proof.
  pose proof (get_fitness_appends_shorter_side "xy" "" "" "a" "ab") as H.
  cbv zeta in H.
  destruct H as (_ & H & _); [simpl; lia|].
  apply H; [discriminate | reflexivity].
Defined.

(** C2: on the seed of the claim the code differs from the guard of the
    specification. The sequence is empty, [a] is "dear", four characters,
    within [10 * max(1, 0)]; line 24 compares with [10 * 0] and returns
    UNFIT. *)
Theorem seed_within_bound_is_unfit :
  Spec.divergence_guard "" "dear" = false
  /\ Edith3.get_fitness "" ("", "") ("dear", "dear") = (Edith3.UNFIT, ("", "")).
Proof. split; reflexivity. Qed.

(** C8: a fusion step with a gene of two non-empty strings that is not
    UNFIT returns a sequence strictly longer than the one it was given. *)
Theorem fusion_grows :
  forall (sequence : string) (dominance : string * string) (A B : string),
    A <> "" -> B <> "" ->
    fst (Edith3.get_fitness sequence dominance (A, B)) <> Edith3.UNFIT ->
    Py.len sequence
    < Py.len (fst (Edith3.get_fitness sequence dominance (A, B))).
Proof.
  intros sequence [leftA leftB] A B HA HB.
  assert (0 < Py.len A) by (destruct A; [congruence | simpl; lia]).
  assert (0 < Py.len B) by (destruct B; [congruence | simpl; lia]).
  unfold Edith3.get_fitness; cbn [fst snd].
  destruct (10 * Py.len sequence <? Py.len (leftA ++ A)%string)%nat;
    [cbn; congruence|].
  destruct (Py.startswith (leftA ++ A)%string (leftB ++ B)%string);
    [cbn [fst]; intros _; rewrite !len_append; lia|].
  destruct (Py.startswith (leftB ++ B)%string (leftA ++ A)%string);
    [cbn [fst]; intros _; rewrite !len_append; lia|].
  cbn; congruence.
Qed.

Lemma fusion_grows_witness :
  Py.len "xy" < Py.len (fst (Edith3.get_fitness "xy" ("", "") ("a", "ab"))).
Proof.
  apply (fusion_grows "xy" ("", "") "a" "ab"); [discriminate .. | ].
  vm_compute. discriminate.
Defined.

(** * The rounds of edith3.py *)

Section Rounds.
Import Py Edith3.

Lemma run_ages_succ (genes : list gene) (n : nat) (st : population) :
  run_ages genes (S n) st
  = (age_step genes (fst (run_ages genes n st)), S (snd (run_ages genes n st))).
Proof.
  unfold run_ages. now rewrite seq_S, fold_left_app.
Qed.

(** The body of the loop runs once per age. *)
Lemma run_ages_count (genes : list gene) (n : nat) (st : population) :
  snd (run_ages genes n st) = n.
Proof.
  induction n as [|n IH]; [reflexivity|].
  rewrite run_ages_succ. simpl. now rewrite IH.
Qed.

Lemma closed_shape (c : chromosome) :
  closed c = true -> c = (fst c, ("", "")) /\ fst c <> UNFIT.
Proof.
  destruct c as [s [ra rb]]. unfold closed, not_unfit. cbn [fst snd].
  rewrite !andb_true_iff, negb_true_iff, String.eqb_neq, !is_empty_true.
  intros [[H1 ->] ->]. split; [reflexivity | exact H1].
Qed.

Lemma catch_survivors_closed (chromosomes : list chromosome) (s : string) :
  In s (catch_survivors chromosomes) ->
  In (s, ("", "")) chromosomes /\ s <> UNFIT.
Proof.
  unfold catch_survivors. rewrite in_map_iff.
  intros (c & <- & Hc). apply filter_In in Hc as [Hin Hcl].
  destruct (closed_shape c Hcl) as [E Hne]. split; [|exact Hne].
  now rewrite <- E.
Qed.

Lemma survivors_closed_at (genes : list gene) (n : nat) (s : string) :
  In s (snd (fst (run_ages genes n (origin_population genes)))) ->
  exists k, k <= n /\ In (s, ("", "")) (Edith3.chromosomes_at genes k) /\ s <> UNFIT.
Proof.
  induction n as [|n IH].
  - cbn. intros H. exists 0. split; [lia|].
    now apply catch_survivors_closed.
  - rewrite run_ages_succ. cbn [fst snd]. unfold Edith3.chromosomes_at in *.
    destruct (fst (run_ages genes n (origin_population genes)))
      as [cs sv] eqn:E.
    cbn [age_step fst snd] in *. rewrite in_app_iff. intros [H|H].
    + destruct (IH H) as (k & Hk & Hin). exists k. split; [lia | exact Hin].
    + exists (S n). split; [lia|].
      rewrite run_ages_succ. cbn [fst snd]. rewrite E. cbn [age_step fst].
      now apply catch_survivors_closed.
Qed.

(** Every survivor caught in the origins or after an age is in the pool
    at the end. *)
Lemma survivors_collected (genes : list gene) (n k : nat) (s : string) :
  k <= n -> In s (catch_survivors (chromosomes_at genes k)) ->
  In s (snd (fst (run_ages genes n (origin_population genes)))).
Proof.
  unfold chromosomes_at. induction n as [|n IH]; intros Hk Hs.
  - assert (k = 0) by lia. subst k. exact Hs.
  - destruct (Nat.eq_dec k (S n)) as [->|Hne].
    + rewrite run_ages_succ in *. cbn [fst snd] in *.
      destruct (fst (run_ages genes n (origin_population genes))) as [cs sv].
      cbn [age_step fst snd] in *. apply in_app_iff. now right.
    + rewrite run_ages_succ. cbn [fst snd].
      assert (Hin := IH ltac:(lia) Hs).
      destruct (fst (run_ages genes n (origin_population genes))) as [cs sv].
      cbn [age_step fst snd] in *. apply in_app_iff. now left.
Qed.

(** The loop is the iteration of its body. *)
Lemma run_ages_iter (genes : list gene) (n : nat) (st : population) :
  fst (run_ages genes n st) = Nat.iter n (age_step genes) st.
Proof.
  induction n as [|n IH]; [reflexivity|].
  rewrite run_ages_succ, Nat.iter_succ. cbn [fst]. now rewrite IH.
Qed.

Lemma age_step_no_chromosomes (genes : list gene) (survivors : list string) :
  age_step genes ([], survivors) = ([], survivors).
Proof. cbn. now rewrite app_nil_r. Qed.

Lemma run_ages_no_chromosomes (genes : list gene) (n : nat)
      (survivors : list string) :
  fst (run_ages genes n ([], survivors)) = ([], survivors).
Proof.
  rewrite run_ages_iter. induction n as [|n IH]; [reflexivity|].
  rewrite Nat.iter_succ, IH. apply age_step_no_chromosomes.
Qed.

Lemma final_survivor_least (pool : list string) :
  (pool <> [] ->
   In (final_survivor pool) pool
   /\ forall t, In t pool -> Py.shorter_or_earlier (final_survivor pool) t)
  /\ (pool = [] -> final_survivor pool = IMPOSSIBLE).
Proof.
  unfold final_survivor. split.
  - intros Hne.
    destruct (sorted lt_len_then_text pool) as [|h r] eqn:E.
    + apply sorted_nil in E. contradiction.
    + destruct (sorted_head_least lt_len_then_text lt_len_then_text_asym
                  lt_len_then_text_le_trans pool h r E) as [Hin Hmin].
      split; [exact Hin|]. intros t Ht.
      apply lt_len_then_text_false. now apply Hmin.
  - intros ->. reflexivity.
Qed.

(** The first of [sorted(survivors, key=len)] has the least length. *)
Lemma shortest_survivor_len (survivors : list string) (s : string) :
  In s survivors -> (forall t, In t survivors -> len s <= len t) ->
  len (hd EmptyString (sorted lt_len survivors)) = len s.
Proof.
  intros Hs Hmin.
  destruct (sorted lt_len survivors) as [|h r] eqn:E.
  - apply sorted_nil in E. subst. destruct Hs.
  - destruct (sorted_head_least lt_len lt_len_asym lt_len_le_trans
                survivors h r E) as [Hin Hh].
    cbn [hd]. specialize (Hh s Hs). specialize (Hmin h Hin).
    unfold lt_len in Hh. apply Nat.ltb_ge in Hh. lia.
Qed.

Lemma flat_map_filter {X Y : Type} (f : X -> list Y) (p : X -> bool)
      (l : list X) :
  (forall x, p x = false -> f x = []) ->
  flat_map f l = flat_map f (filter p l).
Proof.
  intros H. induction l as [|x l IH]; simpl; [reflexivity|].
  destruct (p x) eqn:E; simpl; [now rewrite IH|].
  now rewrite (H x E), IH.
Qed.

Lemma flat_map_nil {X Y : Type} (l : list X) :
  flat_map (fun _ : X => @nil Y) l = [].
Proof. induction l; simpl; auto. Qed.

End Rounds.

(** C3: on the case of one gene "a ab" and one gene "bcd cd" every seed
    is UNFIT, as the claim says, but the UNFIT tuples stay in the working
    set (lines 53-58 filter nothing), the first age uses their text
    "_unfit" as a sequence, and the answer is not IMPOSSIBLE. *)
Theorem unfit_origins_are_mutated :
  let genes := [("a", "ab"); ("bcd", "cd")] in
  Edith3.origins genes = [(Edith3.UNFIT, ("", "")); (Edith3.UNFIT, ("", ""))]
  /\ Edith3.survivor_pool genes Edith3.ages = ["_unfitabcd"; "_unfitabcd"]
  /\ Edith3.solve genes Edith3.ages = "_unfitabcd".
Proof. intros genes. repeat split; vm_compute; reflexivity. Qed.

(** C4: on the single gene "dear dear" the seeding of edith3.py catches
    no survivor, and the answer of the case is "_unfitdear", not "dear". *)
Theorem self_equal_pair_not_caught :
  let genes := [("dear", "dear")] in
  Edith3.catch_survivors (Edith3.origins genes) = []
  /\ Edith3.solve genes Edith3.ages = "_unfitdear"
  /\ Edith3.solve genes Edith3.ages <> "dear".
Proof.
  intros genes. repeat split; vm_compute; try reflexivity. discriminate.
Qed.

(** C5: when the pool of survivors at the end of the ages is not empty,
    the answer is a survivor of the pool, and no survivor caught in the
    origins or after any of the ages is shorter, or as long and earlier in
    the order of the strings; when the pool is empty the answer is
    IMPOSSIBLE. *)
Theorem solve_returns_least_survivor :
  forall (genes : list Edith3.gene) (ages : nat),
    (Edith3.survivor_pool genes ages <> [] ->
     In (Edith3.solve genes ages) (Edith3.survivor_pool genes ages)
     /\ forall k t,
          k <= ages ->
          In t (Edith3.catch_survivors (Edith3.chromosomes_at genes k)) ->
          Py.shorter_or_earlier (Edith3.solve genes ages) t)
    /\ (Edith3.survivor_pool genes ages = [] ->
        Edith3.solve genes ages = Edith3.IMPOSSIBLE).
Proof.
  intros genes ages. unfold Edith3.solve.
  destruct (final_survivor_least (Edith3.survivor_pool genes ages))
    as [Hsome Hnone].
  split; [|exact Hnone].
  intros Hne. destruct (Hsome Hne) as [Hin Hmin].
  split; [exact Hin|].
  intros k t Hk Ht. apply Hmin.
  now apply (survivors_collected genes ages k).
Qed.

Lemma solve_returns_least_survivor_witness :
  (In (Edith3.solve [("b", "b"); ("a", "a")] 8)
      (Edith3.survivor_pool [("b", "b"); ("a", "a")] 8)
   /\ Py.shorter_or_earlier (Edith3.solve [("b", "b"); ("a", "a")] 8) "_unfitb")
  /\ Edith3.solve [("ab", "cd")] 8 = Edith3.IMPOSSIBLE.
Proof.
  split.
  - destruct (solve_returns_least_survivor [("b", "b"); ("a", "a")] 8)
      as [H _].
    destruct H as [Hin Hmin]; [vm_compute; discriminate|].
    split; [exact Hin|].
    apply (Hmin 1); [lia|]. vm_compute. auto.
  - apply (solve_returns_least_survivor [("ab", "cd")] 8).
    vm_compute. reflexivity.
Defined.

(** * A single gene with two equal words in edith3.py *)

Section SelfEqualPair.
Import Py Edith3.

Variable w : string.
Hypothesis w_not_empty : w <> "".

Lemma self_equal_origin :
  origin_population [(w, w)] = ([(UNFIT, ("", ""))], []).
Proof.
  unfold origin_population, origins. cbn [map].
  now rewrite (seed_unfit w w w_not_empty).
Qed.

Lemma self_equal_first_age :
  age_step [(w, w)] ([(UNFIT, ("", ""))], [])
  = if (60 <? len w)%nat then ([], [])
    else ([(("_unfit" ++ w)%string, ("", ""))], [("_unfit" ++ w)%string]).
Proof.
  unfold age_step, mutations. cbn [flat_map may_mutate app map fst snd].
  destruct (60 <? len w)%nat eqn:G.
  - rewrite get_fitness_guard; [reflexivity|].
    apply Nat.ltb_lt in G. cbn [fst snd String.append]. exact G.
  - unfold get_fitness. cbn [fst snd String.append].
    change (10 * len UNFIT) with 60. rewrite G, startswith_refl, slice_from_all.
    destruct w as [|c w']; [congruence | reflexivity].
Qed.

Lemma self_equal_later_age :
  age_step [(w, w)]
    ([(("_unfit" ++ w)%string, ("", ""))], [("_unfit" ++ w)%string])
  = ([], [("_unfit" ++ w)%string]).
Proof.
  unfold age_step, mutations, may_mutate.
  cbn [sorted fold_right insert hd fst flat_map].
  now rewrite Nat.ltb_irrefl.
Qed.

(** After any positive number of ages the answer is the word behind the
    text of the sentinel, or IMPOSSIBLE for a word of more than sixty
    characters. *)
Lemma edith3_self_equal_pair (n : nat) :
  solve [(w, w)] (S n)
  = if (60 <? len w)%nat then IMPOSSIBLE else ("_unfit" ++ w)%string.
Proof.
  unfold solve, survivor_pool.
  rewrite run_ages_iter, Nat.iter_succ_r, self_equal_origin,
    self_equal_first_age.
  destruct (60 <? len w)%nat.
  - now rewrite <- run_ages_iter, run_ages_no_chromosomes.
  - destruct n as [|n]; [reflexivity|].
    rewrite Nat.iter_succ_r, self_equal_later_age.
    now rewrite <- run_ages_iter, run_ages_no_chromosomes.
Qed.

(** It is never the word itself. *)
Lemma edith3_self_equal_pair_wrong (n : nat) : solve [(w, w)] (S n) <> w.
Proof.
  rewrite edith3_self_equal_pair.
  destruct (60 <? len w)%nat eqn:G.
  - intros E. rewrite <- E in G. discriminate G.
  - apply append_not_self. discriminate.
Qed.

End SelfEqualPair.

(** * Pruning *)

Section Pruning.
Import Py Edith3.

(** With a survivor on record, the condition of lines 78-79 compares
    with the least length among the survivors. *)
Lemma may_mutate_shortest (survivors : list string) (s : string)
      (c : chromosome) :
  In s survivors -> (forall t, In t survivors -> len s <= len t) ->
  may_mutate survivors c = (len (fst c) <? len s)%nat.
Proof.
  intros Hs Hmin. unfold may_mutate.
  rewrite (shortest_survivor_len survivors s Hs Hmin).
  destruct survivors; [destruct Hs | reflexivity].
Qed.

Lemma mutations_In (genes : list gene) (survivors : list string)
      (chromosomes : list chromosome) (c : chromosome) (g : gene) :
  In (c, g) (mutations genes survivors chromosomes) ->
  In c chromosomes /\ In g genes /\ may_mutate survivors c = true.
Proof.
  unfold mutations. rewrite in_flat_map. intros (c' & Hc' & H).
  apply in_flat_map in H as (g' & Hg' & H).
  destruct (may_mutate survivors c') eqn:E; [|destruct H].
  destruct H as [[= <- <-]|[]]. auto.
Qed.

End Pruning.

(** C6, as the claim words it, fails in edith.py: [mutate] pairs every
    chromosome with every gene.  After the construction of the population
    for the genes "a a" and "b bc" the survivor "a" has length 1, the
    chromosome "b" has length 1, the loop of [Sequence.run] is entered, and
    its first call of [mutate] pairs "b" with both genes. *)
Lemma mutate_crosses_every_chromosome :
  let genes := [Edith.Row "a" "a"; Edith.Row "b" "bc"] in
  exists p,
    Edith.Population_init genes = inr p
    /\ Edith.shortest_survivor p = Some 1
    /\ Edith.chromosomes p = [Edith.Row "b" "bc"]
    /\ Edith.chromosomes (Edith.mutate genes p)
       = [Edith.Row "ba" "bca"; Edith.Row "bb" "bcbc"]
    /\ Edith.run genes 2 p = Edith.run_ages genes 2 p.
Proof.
  intros genes. eexists. split; [reflexivity|].
  repeat split; vm_compute; reflexivity.
Qed.

(** C6, amended: in edith3.py, in an age that starts with a survivor on
    record, a chromosome whose sequence is at least as long as the shortest
    survivor is paired with no gene, and the age ends as if the chromosomes
    of that length were not there. *)
Theorem long_chromosomes_are_not_mutated :
  forall (genes : list Edith3.gene) (survivors : list string)
         (chromosomes : list Edith3.chromosome) (s : string),
    In s survivors ->
    (forall t, In t survivors -> Py.len s <= Py.len t) ->
    (forall c g, Py.len s <= Py.len (fst c) ->
                 ~ In (c, g) (Edith3.mutations genes survivors chromosomes))
    /\ Edith3.age_step genes (chromosomes, survivors)
       = Edith3.age_step genes
           (filter (fun c => (Py.len (fst c) <? Py.len s)%nat) chromosomes,
            survivors).
Proof.
  intros genes survivors chromosomes s Hs Hmin. split.
  - intros c g Hlen Hin. apply mutations_In in Hin as (_ & _ & Hm).
    rewrite (may_mutate_shortest survivors s c Hs Hmin) in Hm.
    apply Nat.ltb_lt in Hm. lia.
  - unfold Edith3.age_step.
    assert (E : Edith3.mutations genes survivors chromosomes
                = Edith3.mutations genes survivors
                    (filter (fun c => (Py.len (fst c) <? Py.len s)%nat)
                            chromosomes)).
    { unfold Edith3.mutations. apply flat_map_filter. intros c Hc.
      rewrite (may_mutate_shortest survivors s c Hs Hmin), Hc.
      apply flat_map_nil. }
    now rewrite <- E.
Qed.

Lemma long_chromosomes_are_not_mutated_witness :
  ~ In (("_unfitab", ("b", "")), ("b", "bb"))
       (Edith3.mutations [("b", "bb")] ["_unfitc"; "_unfitdd"]
                         [("_unfitab", ("b", ""))]).
Proof.
  refine (proj1 (long_chromosomes_are_not_mutated
                   [("b", "bb")] ["_unfitc"; "_unfitdd"]
                   [("_unfitab", ("b", ""))] "_unfitc" _ _) _ _ _).
  - simpl. auto.
  - intros t [<-|[<-|[]]]; simpl; lia.
  - simpl. lia.
Defined.

(** * Survivors *)

(** In edith3.py every survivor was caught on a chromosome with two empty
    dominance strings, in the origins or after one of the ages. *)
Lemma edith3_survivors_are_closed :
  forall (genes : list Edith3.gene) (ages : nat) (s : string),
    In s (Edith3.survivor_pool genes ages) ->
    exists k, k <= ages /\ In (s, ("", "")) (Edith3.chromosomes_at genes k)
              /\ s <> Edith3.UNFIT.
Proof. intros genes ages s. apply survivors_closed_at. Qed.

(** So is every answer of edith3.py that does not come from an empty pool. *)
Lemma edith3_answer_is_closed :
  forall (genes : list Edith3.gene) (ages : nat),
    Edith3.survivor_pool genes ages <> [] ->
    exists k, k <= ages
              /\ In (Edith3.solve genes ages, ("", "")) (Edith3.chromosomes_at genes k).
Proof.
  intros genes ages Hne.
  destruct (final_survivor_least (Edith3.survivor_pool genes ages))
    as [H _].
  destruct (H Hne) as [Hin _].
  destruct (survivors_closed_at genes ages _ Hin) as (k & Hk & Hc & _).
  exists k. split; [exact Hk | exact Hc].
Qed.

(** C7: in edith.py, on the single gene "x_fit x", the part of A left
    after B is "_fit", the text of the sentinel FIT, and [__remove_fit]
    records the row as a survivor although A and B differ; the answer of
    the case is "x_fit". *)
Theorem sentinel_text_is_caught :
  let genes := [Edith.Row "x_fit" "x"] in
  Edith.get_fitness "x_fit" "x" = Edith.FIT
  /\ Py.slice_from (Py.len "x") "x_fit" = "_fit"
  /\ Edith.Population_init genes
     = inr {| Edith.chromosomes := [];
              Edith.survivors :=
                [{| Edith.chrom := Edith.Row "x_fit" "x";
                    Edith.A_DOMINANCE := "_fit";
                    Edith.B_DOMINANCE := "_unfit" |}] |}
  /\ Edith.solve genes = inr "x_fit".
Proof. intros genes. repeat split; vm_compute; reflexivity. Qed.

(** * The number of ages *)

(** C10: for every list of genes and every number of ages the loop of
    edith3.py ends, its body has run at most that many times, and the
    answer is read off the population it ends with. *)
Theorem solve_runs_at_most_max_rounds :
  forall (genes : list Edith3.gene) (maxRounds : nat),
    exists (p : Edith3.population) (k : nat),
      Edith3.run_ages genes maxRounds (Edith3.origin_population genes) = (p, k)
      /\ k <= maxRounds
      /\ Edith3.solve genes maxRounds = Edith3.final_survivor (snd p).
Proof.
  intros genes maxRounds.
  exists (fst (Edith3.run_ages genes maxRounds (Edith3.origin_population genes))).
  exists (snd (Edith3.run_ages genes maxRounds (Edith3.origin_population genes))).
  split; [apply surjective_pairing|].
  split; [rewrite run_ages_count; lia | reflexivity].
Qed.

(** * The same facts in edith.py *)

Section Population.
Import Py Edith.

(** A single gene whose two words are equal and not empty is caught by
    the constructor of the population and is the answer of the case. *)
Lemma edith_self_equal_pair (w : string) :
  w <> "" ->
  Population_init [Row w w]
  = inr {| chromosomes := [];
           survivors := [{| chrom := Row w w;
                            A_DOMINANCE := FIT;
                            B_DOMINANCE := FIT |}] |}
  /\ solve [Row w w] = inr w.
Proof.
  intros Hw.
  assert (E : Population_init [Row w w]
              = inr {| chromosomes := [];
                       survivors := [{| chrom := Row w w;
                                        A_DOMINANCE := FIT;
                                        B_DOMINANCE := FIT |}] |}).
  { destruct w as [|c w]; [congruence|].
    unfold Population_init, fit, same_first_char, first_char.
    cbn [filter col_A col_B String.get]. rewrite Ascii.eqb_refl.
    cbn [chromosomes survivors calculate_dominance map col_A col_B app].
    unfold get_fitness. rewrite String.eqb_refl. reflexivity. }
  split; [exact E|].
  unfold solve, Sequence_run. cbn [List.length Nat.ltb Nat.leb].
  rewrite E. reflexivity.
Qed.

(** The loop of [Sequence.run] runs at most [ages] times. *)
Lemma edith_run_ages_count (genes : list row) (ages : nat) (p : Population) :
  snd (run_ages genes ages p) <= ages.
Proof.
  revert p. induction ages as [|n IH]; intros p; cbn [run_ages].
  - cbn. lia.
  - destruct (chromosomes (fit (mutate genes p))); [cbn; lia|].
    destruct (lt_nan _ _); [cbn; lia|].
    specialize (IH (fit (mutate genes p))).
    destruct (run_ages genes n (fit (mutate genes p))). cbn in *. lia.
Qed.

Lemma edith_run_count (genes : list row) (ages : nat) (p : Population) :
  snd (run genes ages p) <= ages.
Proof.
  unfold run. destruct (chromosomes p); [cbn; lia|].
  apply edith_run_ages_count.
Qed.


Lemma lt_row_asym (f g : fitted) : lt_row f g = true -> lt_row g f = false.
Proof. apply lt_len_then_text_asym. Qed.

Lemma lt_row_le_trans (f g h : fitted) :
  lt_row g f = false -> lt_row h g = false -> lt_row h f = false.
Proof. apply lt_len_then_text_le_trans. Qed.

(** [get_survivor] returns the A column of a survivor that is least by
    length and then by text, or the default without survivors. *)
Lemma edith_get_survivor_least (default : string) (p : Population) :
  (survivors p <> [] ->
   exists f, In f (survivors p)
             /\ get_survivor default p = col_A (chrom f)
             /\ forall g, In g (survivors p) ->
                  Py.shorter_or_earlier (col_A (chrom f)) (col_A (chrom g)))
  /\ (survivors p = [] -> get_survivor default p = default).
Proof.
  unfold get_survivor. split.
  - intros Hne. destruct (survivors p) as [|f0 l] eqn:E; [congruence|].
    destruct (sorted lt_row (f0 :: l)) as [|h r] eqn:Es.
    + apply sorted_nil in Es. discriminate.
    + destruct (sorted_head_least lt_row lt_row_asym lt_row_le_trans
                  _ h r Es) as [Hin Hmin].
      exists h. split; [exact Hin|]. split; [reflexivity|].
      intros g Hg. apply lt_len_then_text_false. apply (Hmin g Hg).
  - intros ->. reflexivity.
Qed.

End Population.

(** * Reading a case in edith3.py *)

Section Reading.
Import Py Edith3.

Lemma pieces_free (p : ascii -> bool) (s : string) :
  free_of p s -> pieces p s = [s].
Proof.
  induction s as [|c s IH]; simpl; [reflexivity|].
  intros [Hc Hs]. now rewrite Hc, (IH Hs).
Qed.

Lemma pieces_append (p : ascii -> bool) (s t : string) (c : ascii) :
  free_of p s -> p c = true ->
  pieces p (s ++ String c t)%string = s :: pieces p t.
Proof.
  intros Hs Hc. induction s as [|d s IH]; simpl.
  - now rewrite Hc.
  - destruct Hs as [Hd Hs]. now rewrite Hd, (IH Hs).
Qed.

Lemma remove_newlines_free (s : string) :
  free_of (Ascii.eqb newline) (remove_newlines s).
Proof.
  induction s as [|c s IH]; cbn [remove_newlines free_of]; [exact I|].
  destruct (Ascii.eqb c newline) eqn:E; [exact IH|].
  cbn [free_of]. split; [|exact IH]. now rewrite Ascii.eqb_sym.
Qed.

(** Joining lines that hold no end of line and splitting the text again
    gives the lines back, unless there was none: then the text is empty
    and splits into one empty line. *)
Lemma split_join (ls : list string) :
  ls <> [] -> Forall (free_of (Ascii.eqb newline)) ls ->
  split_newline (join_newline ls) = ls.
Proof.
  unfold split_newline, join_newline.
  induction ls as [|l ls IH]; [congruence|]. intros _ H.
  inversion H as [|? ? Hl Hls]; subst.
  destruct ls as [|l' ls].
  - simpl. now apply pieces_free.
  - cbn [String.concat]. cbn [String.append].
    rewrite pieces_append by (auto using Ascii.eqb_refl).
    f_equal. apply IH; [discriminate | exact Hls].
Qed.

Lemma next_lines_short (n : nat) (stdin : list string) :
  List.length stdin < n -> next_lines n stdin = inl StopIteration.
Proof.
  revert stdin. induction n as [|n IH]; intros stdin H; [lia|].
  destruct stdin as [|l stdin]; simpl in *; [reflexivity|].
  rewrite IH by lia. reflexivity.
Qed.

Lemma next_lines_enough (n : nat) (stdin : list string) :
  n <= List.length stdin ->
  next_lines n stdin
  = inr (map remove_newlines (firstn n stdin), skipn n stdin).
Proof.
  revert stdin. induction n as [|n IH]; intros stdin H; [reflexivity|].
  destruct stdin as [|l stdin]; simpl in *; [lia|].
  rewrite IH by lia. reflexivity.
Qed.

Lemma gene_of_tokens_enough (tokens : list string) :
  2 <= List.length tokens -> gene_of_tokens tokens = inr (first_two tokens).
Proof.
  destruct tokens as [|a [|b r]]; simpl; intros H; try lia. reflexivity.
Qed.

Lemma gene_of_tokens_few (tokens : list string) :
  List.length tokens < 2 -> gene_of_tokens tokens = inl IndexError.
Proof.
  destruct tokens as [|a [|b r]]; simpl; intros H; try lia; reflexivity.
Qed.

Lemma genes_of_tokens_enough (ts : list (list string)) :
  Forall (fun t => 2 <= List.length t) ts ->
  genes_of_tokens ts = inr (map first_two ts).
Proof.
  induction 1 as [|t ts Ht _ IH]; simpl; [reflexivity|].
  now rewrite (gene_of_tokens_enough t Ht), IH.
Qed.

Lemma genes_of_tokens_few (ts : list (list string)) :
  Exists (fun t => List.length t < 2) ts ->
  genes_of_tokens ts = inl IndexError.
Proof.
  induction ts as [|t ts IH]; intros H; [inversion H|]. simpl.
  destruct (Nat.lt_ge_cases (List.length t) 2) as [Hlt|Hge].
  - now rewrite (gene_of_tokens_few t Hlt).
  - rewrite (gene_of_tokens_enough t Hge).
    inversion H as [? ? Ht|? ? Hts]; subst; [lia|].
    now rewrite (IH Hts).
Qed.

Lemma genes_tokens_of_lines (n : nat) (stdin : list string) :
  0 < n <= List.length stdin ->
  genes_tokens (join_newline (map remove_newlines (firstn n stdin)))
  = Edith3.case_tokens n stdin.
Proof.
  intros [Hn Hle]. unfold genes_tokens, case_tokens.
  rewrite split_join.
  - now rewrite map_map.
  - destruct n; [lia|]. destruct stdin; simpl in *; [lia | discriminate].
  - apply Forall_forall. intros l Hl. apply in_map_iff in Hl as (l0 & <- & _).
    apply remove_newlines_free.
Qed.

End Reading.

(** C9, as the claim words it, fails: a line of three tokens raises
    nothing.  The case of one declared line "a a x" is solved on the gene
    ("a", "a"). *)
Lemma three_tokens_are_accepted :
  Py.split (Py.text_line "a a x") = ["a"; "a"; "x"]
  /\ Edith3.run_case 1 [Py.text_line "a a x"]
     = inr (Edith3.solve [("a", "a")] Edith3.ages, []).
Proof. split; vm_compute; reflexivity. Qed.

(** C9, amended: in edith3.py a case that declares more lines than the
    input has left ends the program with StopIteration; a case that
    declares no line, or one of whose lines has fewer than two tokens, ends
    it with IndexError; and a case whose lines all have two tokens or more
    is solved on the first two tokens of each line, whatever follows them,
    and leaves the rest of the input to the next case. *)
Theorem run_case_outcomes :
  forall (case_length : Z) (stdin : list string),
    let n := Z.to_nat case_length in
    (List.length stdin < n ->
     Edith3.run_case case_length stdin = inl Py.StopIteration)
    /\ (n = 0 -> Edith3.run_case case_length stdin = inl Py.IndexError)
    /\ (0 < n <= List.length stdin ->
        Exists (fun t => List.length t < 2) (Edith3.case_tokens n stdin) ->
        Edith3.run_case case_length stdin = inl Py.IndexError)
    /\ (0 < n <= List.length stdin ->
        Forall (fun t => 2 <= List.length t) (Edith3.case_tokens n stdin) ->
        Edith3.run_case case_length stdin
        = inr (Edith3.solve (map Edith3.first_two (Edith3.case_tokens n stdin))
                            Edith3.ages,
               skipn n stdin)).
Proof.
  intros case_length stdin n. unfold Edith3.run_case. fold n.
  repeat split.
  - intros H. now rewrite next_lines_short.
  - intros ->. reflexivity.
  - intros Hn Hex. rewrite next_lines_enough by lia.
    rewrite genes_tokens_of_lines by exact Hn.
    now rewrite genes_of_tokens_few.
  - intros Hn Hall. rewrite next_lines_enough by lia.
    rewrite genes_tokens_of_lines by exact Hn.
    now rewrite genes_of_tokens_enough.
Qed.

Lemma run_case_outcomes_witness :
  Edith3.run_case 2 [Py.text_line "ab ab"] = inl Py.StopIteration
  /\ Edith3.run_case 0 [Py.text_line "ab ab"] = inl Py.IndexError
  /\ Edith3.run_case 2 [Py.text_line "ab ab"; Py.text_line "ab"]
     = inl Py.IndexError
  /\ Edith3.run_case 1 [Py.text_line "ab ab"; Py.text_line "3"]
     = inr (Edith3.solve [("ab", "ab")] Edith3.ages, [Py.text_line "3"]).
Proof.
  split; [|split; [|split]].
  - destruct (run_case_outcomes 2 [Py.text_line "ab ab"]) as (H & _).
    apply H. simpl. lia.
  - destruct (run_case_outcomes 0 [Py.text_line "ab ab"]) as (_ & H & _).
    apply H. reflexivity.
  - destruct (run_case_outcomes 2 [Py.text_line "ab ab"; Py.text_line "ab"])
      as (_ & _ & H & _).
    apply H.
    + simpl. lia.
    + apply Exists_cons_tl, Exists_cons_hd. vm_compute. lia.
  - destruct (run_case_outcomes 1 [Py.text_line "ab ab"; Py.text_line "3"])
      as (_ & _ & _ & H).
    apply H.
    + simpl. lia.
    + repeat constructor.
Defined.


(** * More on the fusion step and the ages of edith3.py *)

Section Chains.
Import Py Edith3.

Lemma append_assoc (s t u : string) :
  ((s ++ t) ++ u)%string = (s ++ (t ++ u))%string.
Proof. induction s as [|c s IH]; simpl; [reflexivity | now rewrite IH]. Qed.

Lemma firsts_app (gs hs : list gene) :
  firsts (gs ++ hs) = (firsts gs ++ firsts hs)%string.
Proof.
  induction gs as [|g gs IH]; simpl; [reflexivity|].
  now rewrite IH, append_assoc.
Qed.

Lemma seconds_app (gs hs : list gene) :
  seconds (gs ++ hs) = (seconds gs ++ seconds hs)%string.
Proof.
  induction gs as [|g gs IH]; simpl; [reflexivity|].
  now rewrite IH, append_assoc.
Qed.

(** What a result other than UNFIT keeps of its arguments. *)
Lemma get_fitness_keeps (sequence : string) (dominance : string * string)
      (g : gene) :
  not_unfit (get_fitness sequence dominance g) = true ->
  let r := get_fitness sequence dominance g in
  (fst r ++ fst (snd r))%string
  = (sequence ++ (fst dominance ++ fst g))%string
  /\ (fst r ++ snd (snd r))%string
     = (sequence ++ (snd dominance ++ snd g))%string
  /\ (fst (snd r) = "" \/ snd (snd r) = "")
  /\ len (fst dominance ++ fst g)%string <= 10 * len sequence.
Proof.
  destruct dominance as [la lb], g as [A B].
  unfold get_fitness, not_unfit. cbn [fst snd].
  destruct (10 * len sequence <? len (la ++ A)%string)%nat eqn:G;
    [cbn; discriminate|].
  apply Nat.ltb_ge in G.
  destruct (startswith (la ++ A)%string (lb ++ B)%string) eqn:Hab.
  - intros _. cbn [fst snd]. rewrite append_empty_r, append_assoc.
    rewrite <- (startswith_split _ _ Hab). auto.
  - destruct (startswith (lb ++ B)%string (la ++ A)%string) eqn:Hba.
    + intros _. cbn [fst snd]. rewrite append_empty_r, append_assoc.
      rewrite <- (startswith_split _ _ Hba). auto.
    + cbn. discriminate.
Qed.

(** The chromosomes after an age are the results, other than UNFIT, of
    the mutations of the age. *)
Lemma age_step_In (genes : list gene) (cs : list chromosome)
      (sv : list string) (c' : chromosome) :
  In c' (fst (age_step genes (cs, sv))) <->
  exists c g, In c cs /\ In g genes /\ may_mutate sv c = true
              /\ c' = get_fitness (fst c) (snd c) g /\ not_unfit c' = true.
Proof.
  cbn [age_step fst]. rewrite filter_In, in_map_iff. split.
  - intros [([c g] & <- & Hin) Hnu]. cbn [fst snd] in *.
    apply mutations_In in Hin as (Hc & Hg & Hm). exists c, g. auto.
  - intros (c & g & Hc & Hg & Hm & -> & Hnu). split; [|exact Hnu].
    exists (c, g). split; [reflexivity|].
    unfold mutations. apply in_flat_map. exists c. split; [exact Hc|].
    apply in_flat_map. exists g. split; [exact Hg|]. rewrite Hm. now left.
Qed.

Lemma chromosomes_at_succ (genes : list gene) (k : nat) :
  chromosomes_at genes (S k)
  = fst (age_step genes (fst (run_ages genes k (origin_population genes)))).
Proof. unfold chromosomes_at. now rewrite run_ages_succ. Qed.

Lemma origins_unfit (genes : list gene) (c : chromosome) :
  Forall (fun g => fst g <> "") genes ->
  In c (origins genes) -> c = (UNFIT, ("", "")).
Proof.
  intros Hg Hc. unfold origins in Hc. apply in_map_iff in Hc as ([A B] & <- & Hin).
  rewrite Forall_forall in Hg. apply seed_unfit. exact (Hg _ Hin).
Qed.

(** Every chromosome held after [k] ages is the fusion of [k] genes of the
    case behind the text of the sentinel. *)
Lemma chromosome_chain (genes : list gene) :
  Forall (fun g => fst g <> "") genes ->
  forall k c, In c (chromosomes_at genes k) ->
    exists gs, List.length gs = k /\ incl gs genes
               /\ (fst c ++ fst (snd c))%string = (UNFIT ++ firsts gs)%string
               /\ (fst c ++ snd (snd c))%string = (UNFIT ++ seconds gs)%string.
Proof.
  intros Hg. induction k as [|k IH]; intros c Hc.
  - rewrite (origins_unfit genes c Hg Hc). exists []. repeat split.
    intros x [].
  - rewrite chromosomes_at_succ in Hc.
    destruct (fst (run_ages genes k (origin_population genes)))
      as [cs sv] eqn:E.
    apply age_step_In in Hc as (c0 & g & Hc0 & Hgin & _ & -> & Hnu).
    assert (Hc0' : In c0 (chromosomes_at genes k))
      by (unfold chromosomes_at; now rewrite E).
    destruct (IH c0 Hc0') as (gs & Hlen & Hincl & HA & HB).
    destruct (get_fitness_keeps _ _ _ Hnu) as (KA & KB & _ & _).
    exists (gs ++ [g]). repeat split.
    + rewrite length_app. simpl. lia.
    + intros x Hx. apply in_app_iff in Hx as [Hx|[<-|[]]]; auto.
    + rewrite KA, <- append_assoc, HA, append_assoc, firsts_app.
      simpl. now rewrite append_empty_r.
    + rewrite KB, <- append_assoc, HB, append_assoc, seconds_app.
      simpl. now rewrite append_empty_r.
Qed.

(** So every survivor is the text of the sentinel followed by a word that
    reads the same on the first and on the second words of a sequence of
    genes. *)
Lemma survivor_chain (genes : list gene) (ages : nat) (s : string) :
  Forall (fun g => fst g <> "") genes ->
  In s (survivor_pool genes ages) ->
  exists gs, 1 <= List.length gs <= ages /\ incl gs genes
             /\ s = (UNFIT ++ firsts gs)%string
             /\ s = (UNFIT ++ seconds gs)%string.
Proof.
  intros Hg Hs.
  destruct (survivors_closed_at genes ages s Hs) as (k & Hk & Hc & Hne).
  destruct (chromosome_chain genes Hg k _ Hc) as (gs & Hlen & Hincl & HA & HB).
  cbn [fst snd] in HA, HB. rewrite append_empty_r in HA, HB.
  exists gs. repeat split; auto; try lia.
  destruct gs; [|simpl; lia].
  exfalso. apply Hne. rewrite HA. reflexivity.
Qed.

End Chains.

(** X1: a fusion step whose result is not UNFIT loses nothing: the new
    sequence followed by the new dominance of a side is the old sequence
    followed by the old dominance and the word of the gene on that side;
    one of the two new dominance strings is empty; and [a] was within ten
    times the length of the old sequence. *)
Theorem fusion_conserves_both_sides :
  forall (sequence leftA leftB A B : string),
    fst (Edith3.get_fitness sequence (leftA, leftB) (A, B)) <> Edith3.UNFIT ->
    let r := Edith3.get_fitness sequence (leftA, leftB) (A, B) in
    (fst r ++ fst (snd r))%string = (sequence ++ leftA ++ A)%string
    /\ (fst r ++ snd (snd r))%string = (sequence ++ leftB ++ B)%string
    /\ (fst (snd r) = "" \/ snd (snd r) = "")
    /\ Py.len (leftA ++ A)%string <= 10 * Py.len sequence.
Proof.
  intros sequence leftA leftB A B Hne.
  apply (get_fitness_keeps sequence (leftA, leftB) (A, B)).
  unfold Edith3.not_unfit. apply negb_true_iff, String.eqb_neq. exact Hne.
Qed.

Lemma fusion_conserves_both_sides_witness :
  let r := Edith3.get_fitness "xy" ("b", "") ("c", "bcd") in
  (fst r ++ fst (snd r))%string = "xybc"
  /\ (fst r ++ snd (snd r))%string = "xybcd"
  /\ (fst (snd r) = "" \/ snd (snd r) = "")
  /\ Py.len "bc" <= 10 * Py.len "xy".
Proof.
  apply (fusion_conserves_both_sides "xy" "b" "" "c" "bcd").
  vm_compute. discriminate.
Defined.

(** X2: in a case whose genes all have a non-empty first word, every
    chromosome held after [k] ages comes from [k] genes of the case: its
    sequence followed by its first dominance string is "_unfit" followed
    by the first words of the [k] genes, and its sequence followed by its
    second dominance string is "_unfit" followed by their second words. *)
Theorem working_set_is_fused_genes :
  forall (genes : list Edith3.gene) (k : nat) (c : Edith3.chromosome),
    Forall (fun g => fst g <> "") genes ->
    In c (Edith3.chromosomes_at genes k) ->
    exists gs,
      List.length gs = k /\ incl gs genes
      /\ (fst c ++ fst (snd c))%string
         = (Edith3.UNFIT ++ Edith3.firsts gs)%string
      /\ (fst c ++ snd (snd c))%string
         = (Edith3.UNFIT ++ Edith3.seconds gs)%string.
Proof. intros genes k c Hg. now apply chromosome_chain. Qed.

Lemma working_set_is_fused_genes_witness :
  exists gs,
    List.length gs = 1 /\ incl gs [("a", "ab"); ("bcd", "cd")]
    /\ ("_unfita" ++ "")%string = (Edith3.UNFIT ++ Edith3.firsts gs)%string
    /\ ("_unfita" ++ "b")%string = (Edith3.UNFIT ++ Edith3.seconds gs)%string.
Proof.
  apply (working_set_is_fused_genes [("a", "ab"); ("bcd", "cd")] 1
           ("_unfita", ("", "b"))).
  - repeat constructor; discriminate.
  - vm_compute. auto.
Defined.

Section PoolFacts.
Import Py Edith3.

Lemma survivor_pool_succ (genes : list gene) (k : nat) :
  survivor_pool genes (S k)
  = survivor_pool genes k ++ catch_survivors (chromosomes_at genes (S k)).
Proof.
  unfold survivor_pool, chromosomes_at. rewrite run_ages_succ. cbn [fst snd].
  destruct (fst (run_ages genes k (origin_population genes))) as [cs sv].
  reflexivity.
Qed.

Lemma run_ages_add (genes : list gene) (k m : nat) (st : population) :
  fst (run_ages genes (m + k) st)
  = fst (run_ages genes m (fst (run_ages genes k st))).
Proof. now rewrite !run_ages_iter, Nat.iter_add. Qed.

Lemma split_tokens_not_empty (line t : string) : In t (split line) -> t <> "".
Proof.
  unfold split. rewrite filter_In. intros [_ H] ->. discriminate H.
Qed.

Lemma genes_of_tokens_inr (ts : list (list string)) (genes : list gene) :
  genes_of_tokens ts = inr genes ->
  genes = map first_two ts /\ Forall (fun t => 2 <= List.length t) ts.
Proof.
  revert genes. induction ts as [|t ts IH]; intros genes; simpl.
  - intros [= <-]. split; [reflexivity | constructor].
  - destruct t as [|a [|b r]]; simpl; try discriminate.
    destruct (genes_of_tokens ts) as [e|gs]; [discriminate|].
    intros [= <-]. destruct (IH gs eq_refl) as [-> Hall].
    split; [reflexivity|]. constructor; [simpl; lia | exact Hall].
Qed.

(** The genes of a case that is read in full have two non-empty words. *)
Lemma case_genes_not_empty (n : nat) (stdin : list string) (g : gene) :
  Forall (fun t => 2 <= List.length t) (case_tokens n stdin) ->
  In g (map first_two (case_tokens n stdin)) ->
  fst g <> "" /\ snd g <> "".
Proof.
  intros Hall Hg. apply in_map_iff in Hg as (t & <- & Ht).
  rewrite Forall_forall in Hall. specialize (Hall t Ht).
  unfold case_tokens in Ht. apply in_map_iff in Ht as (l & <- & _).
  destruct (split (remove_newlines l)) as [|a [|b r]] eqn:E;
    simpl in Hall; try lia.
  cbn. split; apply (split_tokens_not_empty (remove_newlines l));
    rewrite E; simpl; auto.
Qed.

(** A case that is answered was read in full. *)
Lemma run_case_inr (case_length : Z) (stdin : list string)
      (answer : string) (rest : list string) :
  run_case case_length stdin = inr (answer, rest) ->
  let n := Z.to_nat case_length in
  0 < n <= List.length stdin
  /\ Forall (fun t => 2 <= List.length t) (case_tokens n stdin)
  /\ answer = solve (map first_two (case_tokens n stdin)) ages
  /\ rest = skipn n stdin.
Proof.
  intros H n. unfold run_case in H. fold n in H.
  destruct (Nat.lt_ge_cases (List.length stdin) n) as [Hlt|Hge].
  { rewrite next_lines_short in H by exact Hlt. discriminate. }
  destruct (Nat.eq_dec n 0) as [E|Hn].
  { rewrite E in H. cbn in H. discriminate. }
  assert (Hn' : 0 < n <= List.length stdin) by lia.
  rewrite next_lines_enough in H by exact Hge.
  rewrite genes_tokens_of_lines in H by exact Hn'.
  destruct (genes_of_tokens (case_tokens n stdin)) as [e|genes] eqn:E;
    [discriminate|].
  destruct (genes_of_tokens_inr _ _ E) as [-> Hall].
  injection H as <- <-. auto.
Qed.

End PoolFacts.

(** X3: whatever edith3.py prints for a case is IMPOSSIBLE, or "_unfit"
    followed by a word that is spelled both by the first words and by the
    second words of one sequence of one to eight genes of the case. *)
Theorem printed_answer_shape :
  forall (case_length : Z) (stdin : list string)
         (answer : string) (rest : list string),
    Edith3.run_case case_length stdin = inr (answer, rest) ->
    answer = Edith3.IMPOSSIBLE
    \/ exists gs,
         1 <= List.length gs <= 8
         /\ incl gs (map Edith3.first_two
                         (Edith3.case_tokens (Z.to_nat case_length) stdin))
         /\ answer = (Edith3.UNFIT ++ Edith3.firsts gs)%string
         /\ answer = (Edith3.UNFIT ++ Edith3.seconds gs)%string.
Proof.
  intros case_length stdin answer rest H.
  destruct (run_case_inr _ _ _ _ H) as (_ & Hall & -> & _).
  set (genes := map Edith3.first_two
                    (Edith3.case_tokens (Z.to_nat case_length) stdin)).
  destruct (final_survivor_least (Edith3.survivor_pool genes Edith3.ages))
    as [Hsome Hnone].
  destruct (Edith3.survivor_pool genes Edith3.ages) as [|s0 pool] eqn:E.
  - left. unfold Edith3.solve. rewrite E. now apply Hnone.
  - right. destruct Hsome as [Hin _]; [discriminate|].
    apply (survivor_chain genes Edith3.ages).
    + apply Forall_forall. intros g Hg.
      now destruct (case_genes_not_empty _ _ g Hall Hg).
    + unfold Edith3.solve. rewrite E. exact Hin.
Qed.

Lemma printed_answer_shape_witness :
  "_unfitabcd" = Edith3.IMPOSSIBLE
  \/ exists gs,
       1 <= List.length gs <= 8
       /\ incl gs (map Edith3.first_two
                       (Edith3.case_tokens (Z.to_nat 2)
                          [Py.text_line "a ab"; Py.text_line "bcd cd"]))
       /\ "_unfitabcd" = (Edith3.UNFIT ++ Edith3.firsts gs)%string
       /\ "_unfitabcd" = (Edith3.UNFIT ++ Edith3.seconds gs)%string.
Proof.
  apply (printed_answer_shape 2 [Py.text_line "a ab"; Py.text_line "bcd cd"]
           "_unfitabcd" []).
  vm_compute. reflexivity.
Defined.

(** X4: survivors are only ever added: the pool after more ages begins
    with the pool after fewer ages. *)
Theorem survivors_are_never_removed :
  forall (genes : list Edith3.gene) (n m : nat),
    exists later,
      Edith3.survivor_pool genes (n + m)
      = Edith3.survivor_pool genes n ++ later.
Proof.
  intros genes n m. induction m as [|m [later IH]].
  - exists []. now rewrite Nat.add_0_r, app_nil_r.
  - exists (later ++ Edith3.catch_survivors
                       (Edith3.chromosomes_at genes (S (n + m)))).
    now rewrite Nat.add_succ_r, survivor_pool_succ, IH, app_assoc.
Qed.

(** X5: once no chromosome is left after [k] ages, further ages change
    nothing: the pool and the answer are those of [k] ages. *)
Theorem no_chromosomes_no_change :
  forall (genes : list Edith3.gene) (k n : nat),
    Edith3.chromosomes_at genes k = [] -> k <= n ->
    Edith3.survivor_pool genes n = Edith3.survivor_pool genes k
    /\ Edith3.solve genes n = Edith3.solve genes k.
Proof.
  intros genes k n Hk Hle.
  assert (E : Edith3.survivor_pool genes n = Edith3.survivor_pool genes k).
  { replace n with ((n - k) + k) by lia.
    unfold Edith3.survivor_pool, Edith3.chromosomes_at in *.
    rewrite run_ages_add.
    destruct (fst (Edith3.run_ages genes k (Edith3.origin_population genes)))
      as [cs sv].
    cbn [fst] in Hk. subst cs. now rewrite run_ages_no_chromosomes. }
  split; [exact E|]. unfold Edith3.solve. now rewrite E.
Qed.

Lemma no_chromosomes_no_change_witness :
  Edith3.survivor_pool [("ab", "cd")] 8 = Edith3.survivor_pool [("ab", "cd")] 1
  /\ Edith3.solve [("ab", "cd")] 8 = Edith3.solve [("ab", "cd")] 1.
Proof.
  apply (no_chromosomes_no_change [("ab", "cd")] 1 8); [reflexivity | lia].
Defined.

(** * The answer and the set of the genes *)

Section SameElements.
Import Py Edith3.

Lemma same_elements_nil {X : Type} (l : list X) :
  same_elements [] l -> l = [].
Proof.
  intros H. destruct l as [|x l]; [reflexivity|].
  destruct (proj2 (H x) (or_introl eq_refl)).
Qed.

Lemma shortest_same (sv sv' : list string) :
  same_elements sv sv' -> sv <> [] ->
  len (hd EmptyString (sorted lt_len sv))
  = len (hd EmptyString (sorted lt_len sv')).
Proof.
  intros Hs Hne.
  destruct (sorted lt_len sv') as [|h' r'] eqn:E'.
  - apply sorted_nil in E'. subst sv'.
    exfalso. apply Hne. apply same_elements_nil.
    intros x. symmetry. apply Hs.
  - destruct (sorted_head_least lt_len lt_len_asym lt_len_le_trans
                sv' h' r' E') as [Hin Hmin].
    cbn [hd]. apply shortest_survivor_len.
    + now apply Hs.
    + intros t Ht. apply Hs in Ht. specialize (Hmin t Ht).
      unfold lt_len in Hmin. now apply Nat.ltb_ge in Hmin.
Qed.

Lemma may_mutate_same (sv sv' : list string) (c : chromosome) :
  same_elements sv sv' -> may_mutate sv c = may_mutate sv' c.
Proof.
  intros Hs. unfold may_mutate.
  destruct sv as [|s sv].
  - now rewrite (same_elements_nil _ Hs).
  - destruct sv' as [|s' sv'].
    + assert (E : s :: sv = []).
      { apply same_elements_nil. intros x. symmetry. apply Hs. }
      discriminate E.
    + now rewrite (shortest_same (s :: sv) (s' :: sv') Hs).
Qed.

Lemma catch_survivors_In (cs : list chromosome) (s : string) :
  In s (catch_survivors cs) <->
  exists c, In c cs /\ closed c = true /\ fst c = s.
Proof.
  unfold catch_survivors. rewrite in_map_iff. split.
  - intros (c & E & H). apply filter_In in H as [H1 H2]. eauto.
  - intros (c & H1 & H2 & E). exists c. split; [exact E|].
    apply filter_In. auto.
Qed.

Lemma catch_survivors_same (cs cs' : list chromosome) :
  same_elements cs cs' ->
  same_elements (catch_survivors cs) (catch_survivors cs').
Proof.
  intros H s. rewrite !catch_survivors_In.
  split; intros (c & Hc & Hrest); exists c; (split; [now apply H | exact Hrest]).
Qed.

Lemma age_step_same (genes genes' : list gene) (cs cs' : list chromosome)
      (sv sv' : list string) :
  same_elements genes genes' -> same_elements cs cs' ->
  same_elements sv sv' ->
  same_elements (fst (age_step genes (cs, sv)))
                (fst (age_step genes' (cs', sv')))
  /\ same_elements (snd (age_step genes (cs, sv)))
                   (snd (age_step genes' (cs', sv'))).
Proof.
  intros Hg Hc Hs.
  assert (H1 : same_elements (fst (age_step genes (cs, sv)))
                             (fst (age_step genes' (cs', sv')))).
  { intros c'. rewrite !age_step_In.
    split; intros (c & g & H1 & H2 & H3 & H4); exists c, g.
    - rewrite <- (may_mutate_same sv sv' c Hs).
      repeat split; try tauto; [now apply Hc | now apply Hg].
    - rewrite (may_mutate_same sv sv' c Hs).
      repeat split; try tauto; [now apply Hc | now apply Hg]. }
  split; [exact H1|].
  intros s. cbn [age_step snd fst] in *. rewrite !in_app_iff.
  pose proof (catch_survivors_same _ _ H1 s) as H2.
  cbn [age_step fst] in H2. rewrite (Hs s), H2. reflexivity.
Qed.

Lemma origins_same (genes genes' : list gene) :
  same_elements genes genes' -> same_elements (origins genes) (origins genes').
Proof.
  intros H c. unfold origins. rewrite !in_map_iff.
  split; intros (g & E & Hg); exists g; (split; [exact E | now apply H]).
Qed.

Lemma run_ages_same (genes genes' : list gene) (n : nat) :
  same_elements genes genes' ->
  same_elements (chromosomes_at genes n) (chromosomes_at genes' n)
  /\ same_elements (survivor_pool genes n) (survivor_pool genes' n).
Proof.
  intros H. unfold chromosomes_at, survivor_pool.
  induction n as [|n [IH1 IH2]].
  - cbn. split; [now apply origins_same|].
    apply catch_survivors_same. now apply origins_same.
  - rewrite !run_ages_succ. cbn [fst snd].
    destruct (fst (run_ages genes n (origin_population genes))) as [cs sv].
    destruct (fst (run_ages genes' n (origin_population genes'))) as [cs' sv'].
    now apply age_step_same.
Qed.

Lemma shorter_or_earlier_antisym (s t : string) :
  shorter_or_earlier s t -> shorter_or_earlier t s -> s = t.
Proof.
  unfold shorter_or_earlier.
  intros [H1|[H1 L1]] [H2|[H2 L2]]; try lia.
  now apply String.leb_antisym.
Qed.

Lemma final_survivor_same (pool pool' : list string) :
  same_elements pool pool' -> final_survivor pool = final_survivor pool'.
Proof.
  intros H.
  destruct (final_survivor_least pool) as [Hsome Hnone].
  destruct (final_survivor_least pool') as [Hsome' Hnone'].
  destruct pool as [|s pool].
  - now rewrite (same_elements_nil _ H).
  - destruct pool' as [|s' pool'].
    + assert (E : s :: pool = []).
      { apply same_elements_nil. intros x. symmetry. apply H. }
      discriminate E.
    + destruct Hsome as [Hin Hmin]; [discriminate|].
      destruct Hsome' as [Hin' Hmin']; [discriminate|].
      apply shorter_or_earlier_antisym.
      * apply Hmin. now apply H.
      * apply Hmin'. now apply H.
Qed.

(** The chromosome that a gene of two equal words gives after the first
    age. *)
Lemma self_equal_gene_fuses (w : string) :
  w <> "" -> len w <= 60 ->
  get_fitness UNFIT ("", "") (w, w) = ((UNFIT ++ w)%string, ("", ""))
  /\ closed ((UNFIT ++ w)%string, ("", "")) = true.
Proof.
  intros Hw Hlen. split.
  - unfold get_fitness. cbn [fst snd String.append].
    change (10 * len UNFIT) with 60.
    assert (G : (60 <? len w)%nat = false) by (apply Nat.ltb_ge; exact Hlen).
    now rewrite G, startswith_refl, slice_from_all.
  - unfold closed, not_unfit. cbn [fst snd is_empty].
    rewrite !andb_true_r. apply negb_true_iff, String.eqb_neq.
    intros E. apply Hw. exact (append_eq_self_l _ _ E).
Qed.

End SameElements.

(** X6: the answer of edith3.py depends only on the set of the genes of
    the case: two lists with the same genes, in any order and with any
    repetition, have the same answer after any number of ages. *)
Theorem answer_depends_on_gene_set :
  forall (genes genes' : list Edith3.gene) (ages : nat),
    (forall g, In g genes <-> In g genes') ->
    Edith3.solve genes ages = Edith3.solve genes' ages.
Proof.
  intros genes genes' ages H. unfold Edith3.solve.
  apply final_survivor_same.
  now apply (run_ages_same genes genes' ages).
Qed.

Lemma answer_depends_on_gene_set_witness :
  Edith3.solve [("a", "ab"); ("bcd", "cd")] 8
  = Edith3.solve [("bcd", "cd"); ("a", "ab"); ("bcd", "cd")] 8.
Proof.
  apply (answer_depends_on_gene_set
           [("a", "ab"); ("bcd", "cd")]
           [("bcd", "cd"); ("a", "ab"); ("bcd", "cd")] 8).
  intros g. simpl. tauto.
Defined.

(** X7: in a case whose genes all have a non-empty first word and that
    holds a gene of two equal words of at most sixty characters, after one
    age or more the answer is not IMPOSSIBLE, and it is no longer than
    "_unfit" followed by that word, nor after it at equal length. *)
Theorem self_equal_gene_bounds_answer :
  forall (genes : list Edith3.gene) (w : string) (n : nat),
    Forall (fun g => fst g <> "") genes ->
    In (w, w) genes -> Py.len w <= 60 ->
    Edith3.solve genes (S n) <> Edith3.IMPOSSIBLE
    /\ Py.shorter_or_earlier (Edith3.solve genes (S n))
                             (Edith3.UNFIT ++ w)%string.
Proof.
  intros genes w n Hg Hin Hlen.
  assert (Hw : w <> "").
  { rewrite Forall_forall in Hg. exact (Hg _ Hin). }
  destruct (self_equal_gene_fuses w Hw Hlen) as [Hfit Hclosed].
  assert (Hc : In ((Edith3.UNFIT ++ w)%string, ("", ""))
                  (Edith3.chromosomes_at genes 1)).
  { rewrite chromosomes_at_succ. cbn [Edith3.run_ages fold_left seq fst].
    unfold Edith3.origin_population.
    rewrite (origins_catch_nothing genes Hg).
    apply age_step_In. exists (Edith3.UNFIT, ("", "")), (w, w).
    repeat split.
    - unfold Edith3.origins. apply in_map_iff. exists (w, w).
      split; [now apply seed_unfit | exact Hin].
    - exact Hin.
    - cbn [fst snd]. now rewrite Hfit.
    - unfold Edith3.closed in Hclosed.
      now apply andb_true_iff in Hclosed as [Hclosed _];
        apply andb_true_iff in Hclosed as [Hclosed _]. }
  assert (Hs : In (Edith3.UNFIT ++ w)%string (Edith3.survivor_pool genes (S n))).
  { apply (survivors_collected genes (S n) 1); [lia|].
    apply catch_survivors_In. eexists. split; [exact Hc|]. now split. }
  destruct (final_survivor_least (Edith3.survivor_pool genes (S n)))
    as [Hsome _].
  destruct Hsome as [Hans Hmin].
  { intros E. rewrite E in Hs. destruct Hs. }
  split; [|now apply Hmin].
  destruct (survivor_chain genes (S n) _ Hg Hans) as (gs & _ & _ & E & _).
  unfold Edith3.solve. rewrite E. discriminate.
Qed.

Lemma self_equal_gene_bounds_answer_witness :
  Edith3.solve [("ab", "a"); ("c", "c")] 8 <> Edith3.IMPOSSIBLE
  /\ Py.shorter_or_earlier (Edith3.solve [("ab", "a"); ("c", "c")] 8)
                           (Edith3.UNFIT ++ "c")%string.
Proof.
  apply (self_equal_gene_bounds_answer [("ab", "a"); ("c", "c")] "c" 7).
  - repeat constructor; discriminate.
  - simpl. auto.
  - simpl. lia.
Defined.

(** * The population of edith.py *)

Section Fitting.
Import Py Edith.

Lemma len_append_neq (b r : string) : r <> "" -> (b ++ r)%string <> b.
Proof.
  intros Hr E. apply Hr. exact (append_eq_self_l _ _ E).
Qed.

(** [get_fitness] answers FIT on two equal strings, and on a string that
    is the other one followed by the text of FIT. *)
Lemma get_fitness_fit (a b : string) :
  get_fitness a b = FIT <-> a = b \/ a = (b ++ FIT)%string.
Proof.
  unfold get_fitness. split.
  - destruct (String.eqb_spec a b) as [->|Hne]; [now left|].
    destruct (startswith a b) eqn:H; [|discriminate].
    intros E. right. rewrite <- E. now apply startswith_split.
  - intros [->| ->].
    + now rewrite String.eqb_refl.
    + destruct (String.eqb_spec (b ++ FIT)%string b) as [E|_].
      * exfalso. revert E. apply len_append_neq. discriminate.
      * now rewrite startswith_append, slice_from_append.
Qed.


Lemma calculate_dominance_scored (cs : list row) :
  calculate_dominance cs = map scored cs.
Proof. reflexivity. Qed.

Lemma fit_chromosomes_In (p : Population) (r : row) :
  In r (chromosomes (fit p)) <->
  In r (chromosomes p) /\ both_unfit (scored r) = false
  /\ any_fit (scored r) = false.
Proof.
  unfold fit, remove_unfit. cbn [chromosomes].
  rewrite calculate_dominance_scored, in_map_iff. split.
  - intros (f & <- & H). apply filter_In in H as [H Hfit].
    apply filter_In in H as [H Hunfit].
    apply in_map_iff in H as (r & <- & Hr). cbn [chrom scored].
    apply negb_true_iff in Hfit, Hunfit. auto.
  - intros (Hr & Hunfit & Hfit). exists (scored r). split; [reflexivity|].
    apply filter_In. split; [|now rewrite Hfit].
    apply filter_In. split; [|now rewrite Hunfit].
    apply in_map_iff. eauto.
Qed.

Lemma fit_survivors_In (p : Population) (f : fitted) :
  In f (survivors (fit p)) <->
  In f (survivors p)
  \/ exists r, In r (chromosomes p) /\ f = scored r
               /\ both_unfit (scored r) = false /\ any_fit (scored r) = true.
Proof.
  unfold fit, remove_unfit. cbn [survivors].
  rewrite calculate_dominance_scored, in_app_iff. split.
  - intros [H|H]; [now left|]. right.
    apply filter_In in H as [H Hfit]. apply filter_In in H as [H Hunfit].
    apply in_map_iff in H as (r & <- & Hr). apply negb_true_iff in Hunfit.
    exists r. auto.
  - intros [H|(r & Hr & -> & Hunfit & Hfit)]; [now left|]. right.
    apply filter_In. split; [|exact Hfit].
    apply filter_In. split; [|now rewrite Hunfit].
    apply in_map_iff. eauto.
Qed.

Lemma any_fit_scored (r : row) :
  any_fit (scored r) = true <->
  col_A r = col_B r
  \/ col_A r = (col_B r ++ FIT)%string \/ col_B r = (col_A r ++ FIT)%string.
Proof.
  unfold any_fit, scored. cbn [A_DOMINANCE B_DOMINANCE].
  rewrite orb_true_iff, !String.eqb_eq, !get_fitness_fit. intuition.
Qed.

End Fitting.


Section PopulationChains.
Import Py Edith.

Variable genes : list row.

Lemma edith_firsts_app (gs hs : list row) :
  firsts (gs ++ hs) = (firsts gs ++ firsts hs)%string.
Proof.
  induction gs as [|g gs IH]; simpl; [reflexivity|].
  now rewrite IH, append_assoc.
Qed.

Lemma edith_seconds_app (gs hs : list row) :
  seconds (gs ++ hs) = (seconds gs ++ seconds hs)%string.
Proof.
  induction gs as [|g gs IH]; simpl; [reflexivity|].
  now rewrite IH, append_assoc.
Qed.

Lemma made_of_le (m m' : nat) (r : row) :
  m <= m' -> made_of genes m r -> made_of genes m' r.
Proof.
  intros Hle (gs & Hlen & H). exists gs. split; [lia | exact H].
Qed.

Lemma made_of_genes_le (m m' : nat) (p : Population) :
  m <= m' -> made_of_genes genes m p -> made_of_genes genes m' p.
Proof.
  intros Hle [Hc Hs]. split.
  - intros r Hr. eapply made_of_le; eauto.
  - intros f Hf. destruct (Hs f Hf). split; [eapply made_of_le; eauto | auto].
Qed.

Lemma fit_made_of_genes (m : nat) (p : Population) :
  made_of_genes genes m p -> made_of_genes genes m (fit p).
Proof.
  intros [Hc Hs]. split.
  - intros r Hr. apply fit_chromosomes_In in Hr as (Hr & _). auto.
  - intros f Hf.
    apply fit_survivors_In in Hf as [Hf|(r & Hr & -> & _ & Hfit)]; auto.
Qed.

Lemma mutate_made_of_genes (m : nat) (p : Population) :
  made_of_genes genes m p -> made_of_genes genes (S m) (mutate genes p).
Proof.
  intros [Hc Hs]. split.
  - unfold mutate. cbn [chromosomes]. intros r Hr.
    apply in_flat_map in Hr as (c & Hcin & Hr).
    apply in_map_iff in Hr as (g & <- & Hg).
    destruct (Hc c Hcin) as (gs & Hlen & Hincl & HA & HB).
    exists (gs ++ [g]). cbn [col_A col_B].
    rewrite length_app, edith_firsts_app, edith_seconds_app, HA, HB.
    simpl. rewrite !append_empty_r. repeat split; try lia.
    intros x Hx. apply in_app_iff in Hx as [Hx|[<-|[]]]; auto.
  - cbn [mutate survivors]. intros f Hf. destruct (Hs f Hf) as [H1 H2].
    split; [|exact H2]. eapply made_of_le; [|exact H1]. lia.
Qed.

Lemma run_ages_made_of_genes (n m : nat) (p : Population) :
  made_of_genes genes m p ->
  made_of_genes genes (m + n) (fst (Edith.run_ages genes n p)).
Proof.
  revert m p. induction n as [|n IH]; intros m p H; cbn [Edith.run_ages].
  - cbn. now rewrite Nat.add_0_r.
  - assert (H' : made_of_genes genes (S m) (fit (mutate genes p)))
      by now apply fit_made_of_genes, mutate_made_of_genes.
    assert (H'' : made_of_genes genes (m + S n) (fit (mutate genes p)))
      by (eapply made_of_genes_le; [|exact H']; lia).
    destruct (chromosomes (fit (mutate genes p))); [exact H''|].
    destruct (lt_nan _ _); [exact H''|].
    specialize (IH (S m) _ H').
    destruct (Edith.run_ages genes n (fit (mutate genes p))) as [q k].
    cbn [fst] in *. now rewrite Nat.add_succ_r.
Qed.

Lemma run_made_of_genes (n m : nat) (p : Population) :
  made_of_genes genes m p ->
  made_of_genes genes (m + n) (fst (run genes n p)).
Proof.
  intros H. unfold run. destruct (chromosomes p) eqn:E.
  - cbn [fst]. eapply made_of_genes_le; [|exact H]. lia.
  - now apply run_ages_made_of_genes.
Qed.

Lemma init_made_of_genes (p : Population) :
  Population_init genes = inr p -> made_of_genes genes 1 p.
Proof.
  intros H.
  assert (Hp : p = fit {| chromosomes := filter same_first_char genes;
                          survivors := [] |}).
  { unfold Population_init in H.
    destruct genes; [discriminate | injection H as <-; reflexivity]. }
  rewrite Hp. apply fit_made_of_genes. split.
  - cbn [chromosomes]. intros r Hr. apply filter_In in Hr as [Hr _].
    exists [r]. simpl. rewrite !append_empty_r. repeat split; try lia.
    intros x [<-|[]]. exact Hr.
  - intros f [].
Qed.

(** The answer of a case is the default, or the A column of a survivor
    made of genes of the case. *)
Lemma edith_answer_chain (answer : string) :
  solve genes = inr answer ->
  answer = IMPOSSIBLE
  \/ exists gs,
       1 <= List.length gs <= S (List.length genes) /\ incl gs genes
       /\ answer = firsts gs
       /\ (seconds gs = answer
           \/ answer = (seconds gs ++ FIT)%string
           \/ seconds gs = (answer ++ FIT)%string).
Proof.
  unfold solve, Sequence_run.
  destruct (List.length genes <? 1)%nat; [discriminate|].
  destruct (Population_init genes) as [e|p0] eqn:E; [discriminate|].
  pose proof (run_made_of_genes (List.length genes) 1 p0
                (init_made_of_genes p0 E)) as [_ Hs].
  destruct (run genes (List.length genes) p0) as [p k]. cbn [fst] in Hs.
  intros [= <-].
  destruct (edith_get_survivor_least IMPOSSIBLE p) as [Hsome Hnone].
  destruct (survivors p) as [|f0 l] eqn:Es; [left; now apply Hnone|].
  right. destruct Hsome as (f & Hf & -> & _); [discriminate|].
  destruct (Hs f Hf) as [(gs & Hlen & Hincl & HA & HB) Hfit].
  exists gs. rewrite <- HA, <- HB.
  apply any_fit_scored in Hfit.
  repeat split; try lia; auto.
  destruct Hfit as [H|[H|H]]; auto.
Qed.

Lemma free_of_append (p : ascii -> bool) (s t : string) :
  free_of p (s ++ t)%string <-> free_of p s /\ free_of p t.
Proof.
  induction s as [|c s IH]; simpl; [tauto|]. rewrite IH. tauto.
Qed.

Lemma free_of_firsts (p : ascii -> bool) (gs : list row) :
  (forall g, In g gs -> free_of p (col_A g)) -> free_of p (firsts gs).
Proof.
  induction gs as [|g gs IH]; intros H; simpl; [exact I|].
  apply free_of_append. split; [apply H; now left|].
  apply IH. intros x Hx. apply H. now right.
Qed.

Lemma free_of_seconds (p : ascii -> bool) (gs : list row) :
  (forall g, In g gs -> free_of p (col_B g)) -> free_of p (seconds gs).
Proof.
  induction gs as [|g gs IH]; intros H; simpl; [exact I|].
  apply free_of_append. split; [apply H; now left|].
  apply IH. intros x Hx. apply H. now right.
Qed.


End PopulationChains.

(** The underscore, the first character of the two sentinels. *)
Lemma underscore_not_free (s : string) :
  ~ Py.free_of (Ascii.eqb "_"%char) (s ++ Edith.FIT)%string.
Proof.
  intros H. apply free_of_append in H as [_ H]. simpl in H.
  destruct H as [H _]. discriminate H.
Qed.

(** X9: the answer of edith.py for a case is IMPOSSIBLE or the A columns,
    one after the other, of a sequence of genes of the case, at most one
    more than the case has; the B columns of the sequence spell the same
    text, or that text with "_fit" added or taken away at its end. *)
Theorem edith_answer_is_made_of_genes :
  forall (genes : list Edith.row) (answer : string),
    Edith.solve genes = inr answer ->
    answer = Edith.IMPOSSIBLE
    \/ exists gs,
         1 <= List.length gs <= S (List.length genes) /\ incl gs genes
         /\ answer = Edith.firsts gs
         /\ (Edith.seconds gs = answer
             \/ answer = (Edith.seconds gs ++ Edith.FIT)%string
             \/ Edith.seconds gs = (answer ++ Edith.FIT)%string).
Proof. intros genes answer. apply edith_answer_chain. Qed.

Lemma edith_answer_is_made_of_genes_witness :
  "abcd" = Edith.IMPOSSIBLE
  \/ exists gs,
       1 <= List.length gs <= 3
       /\ incl gs [Edith.Row "a" "ab"; Edith.Row "bcd" "cd"]
       /\ "abcd" = Edith.firsts gs
       /\ (Edith.seconds gs = "abcd"
           \/ "abcd" = (Edith.seconds gs ++ Edith.FIT)%string
           \/ Edith.seconds gs = ("abcd" ++ Edith.FIT)%string).
Proof.
  apply (edith_answer_is_made_of_genes
           [Edith.Row "a" "ab"; Edith.Row "bcd" "cd"] "abcd").
  vm_compute. reflexivity.
Defined.

(** X10: when no word of the case holds an underscore, an answer of
    edith.py other than IMPOSSIBLE is spelled both by the A columns and
    by the B columns of one sequence of genes of the case. *)
Theorem edith_answer_is_a_solution :
  forall (genes : list Edith.row) (answer : string),
    (forall g, In g genes ->
       Py.free_of (Ascii.eqb "_"%char) (Edith.col_A g)
       /\ Py.free_of (Ascii.eqb "_"%char) (Edith.col_B g)) ->
    Edith.solve genes = inr answer ->
    answer = Edith.IMPOSSIBLE
    \/ exists gs,
         1 <= List.length gs <= S (List.length genes) /\ incl gs genes
         /\ answer = Edith.firsts gs /\ answer = Edith.seconds gs.
Proof.
  intros genes answer Hfree H.
  destruct (edith_answer_chain genes answer H)
    as [E|(gs & Hlen & Hincl & HA & HB)]; [now left|].
  right. exists gs. repeat split; try lia; auto.
  assert (FA : Py.free_of (Ascii.eqb "_"%char) (Edith.firsts gs)).
  { apply free_of_firsts. intros g Hg. now apply Hfree, Hincl. }
  assert (FB : Py.free_of (Ascii.eqb "_"%char) (Edith.seconds gs)).
  { apply free_of_seconds. intros g Hg. now apply Hfree, Hincl. }
  destruct HB as [HB|[HB|HB]].
  - now symmetry.
  - exfalso. rewrite <- HA, HB in FA. exact (underscore_not_free _ FA).
  - exfalso. rewrite HB in FB. exact (underscore_not_free _ FB).
Qed.

Lemma edith_answer_is_a_solution_witness :
  "abcd" = Edith.IMPOSSIBLE
  \/ exists gs,
       1 <= List.length gs <= 3
       /\ incl gs [Edith.Row "a" "ab"; Edith.Row "bcd" "cd"]
       /\ "abcd" = Edith.firsts gs /\ "abcd" = Edith.seconds gs.
Proof.
  apply (edith_answer_is_a_solution
           [Edith.Row "a" "ab"; Edith.Row "bcd" "cd"] "abcd").
  - intros g [<-|[<-|[]]]; vm_compute; auto 10.
  - vm_compute. reflexivity.
Defined.



(** * The two breaks of Sequence.run *)

Section Breaks.
Import Py Edith.

Variable genes : list row.










End Breaks.


(** * The script on a well-formed input *)

Section WellFormedInput.
Import Py Edith3.

Lemma remove_newlines_append (s t : string) :
  remove_newlines (s ++ t)%string
  = (remove_newlines s ++ remove_newlines t)%string.
Proof.
  induction s as [|c s IH]; simpl; [reflexivity|].
  destruct (Ascii.eqb c newline); simpl; now rewrite IH.
Qed.

Lemma remove_newlines_word (s : string) :
  free_of isspace s -> remove_newlines s = s.
Proof.
  induction s as [|c s IH]; simpl; [reflexivity|]. intros [Hc Hs].
  destruct (Ascii.eqb_spec c newline) as [->|_]; [discriminate Hc|].
  now rewrite (IH Hs).
Qed.

Lemma gene_line_tokens (g : gene) :
  word (fst g) -> word (snd g) ->
  split (remove_newlines (gene_line g)) = [fst g; snd g].
Proof.
  destruct g as [a b]. cbn [fst snd]. intros [Ha Fa] [Hb Fb].
  unfold gene_line, text_line. cbn [fst snd].
  rewrite !remove_newlines_append, (remove_newlines_word a Fa).
  cbn [remove_newlines]. change (Ascii.eqb " " newline) with false.
  change (Ascii.eqb newline newline) with true. cbv iota.
  rewrite (remove_newlines_word b Fb), append_empty_r.
  unfold split. rewrite (pieces_append isspace a b " "%char Fa eq_refl).
  rewrite (pieces_free isspace b Fb). cbn [filter].
  destruct a; [congruence|]. destruct b; [congruence|]. reflexivity.
Qed.

Lemma case_tokens_lines (genes : list gene) (rest : list string) :
  Forall words genes ->
  case_tokens (List.length genes) (map gene_line genes ++ rest)
  = map (fun g => [fst g; snd g]) genes.
Proof.
  unfold case_tokens. induction 1 as [|g genes [Hg1 Hg2] _ IH]; [reflexivity|].
  cbn [List.length map app firstn]. now rewrite gene_line_tokens, IH.
Qed.

Lemma skipn_lines (genes : list gene) (rest : list string) :
  skipn (List.length genes) (map gene_line genes ++ rest) = rest.
Proof. induction genes as [|g genes IH]; [reflexivity | exact IH]. Qed.

Lemma first_two_pairs (genes : list gene) :
  map first_two (map (fun g => [fst g; snd g]) genes) = genes.
Proof.
  induction genes as [|[a b] genes IH]; [reflexivity|].
  cbn. cbn in IH. now rewrite IH.
Qed.

(** A case of well-formed lines is answered by the search on its genes. *)
Lemma run_case_well_formed (genes : list gene) (rest : list string) :
  genes <> [] -> Forall words genes ->
  run_case (Z.of_nat (List.length genes)) (map gene_line genes ++ rest)
  = inr (solve genes ages, rest).
Proof.
  intros Hne Hw. unfold run_case. rewrite Nat2Z.id.
  assert (Hn : 0 < List.length genes
               <= List.length (map gene_line genes ++ rest)).
  { rewrite length_app, length_map. destruct genes; [congruence | simpl; lia]. }
  rewrite next_lines_enough by lia.
  rewrite genes_tokens_of_lines by exact Hn.
  rewrite (case_tokens_lines genes rest Hw).
  rewrite genes_of_tokens_enough.
  - now rewrite first_two_pairs, skipn_lines.
  - apply Forall_forall. intros t Ht. apply in_map_iff in Ht as (g & <- & _).
    simpl. lia.
Qed.

Variable int : string -> option Z.

Lemma main_loop_well_formed (cases : list (string * list gene)) :
  Forall (well_formed int) cases ->
  forall turns case_number,
    List.length (flat_map case_lines cases) <= turns ->
    main_loop int turns case_number (flat_map case_lines cases)
    = (answers case_number cases, None).
Proof.
  induction 1 as [|[count genes] cases (Hne & Hint & Hw) _ IH];
    intros turns k Hturns.
  - destruct turns; reflexivity.
  - cbn [flat_map case_lines fst snd app] in *.
    destruct turns as [|turns]; [simpl in Hturns; lia|].
    cbn [main_loop]. rewrite Hint, (run_case_well_formed genes _ Hne Hw).
    rewrite IH.
    + reflexivity.
    + simpl in Hturns. rewrite length_app in Hturns. lia.
Qed.

End WellFormedInput.

(** X13: on an input made of cases, each a line that [int] reads as the
    number of the genes of the case, which is not zero, followed by one
    line of two words for each gene, the script ends without an error
    after printing one line for each case, in the order of the input:
    "Case", the number of the case counted from 1, a colon, and the
    answer of the search on the genes of the case after eight ages. *)
Theorem main_prints_one_answer_per_case :
  forall (int : string -> option Z)
         (cases : list (string * list Edith3.gene)),
    Forall (Edith3.well_formed int) cases ->
    Edith3.main int (flat_map Edith3.case_lines cases)
    = (Edith3.answers 0 cases, None).
Proof.
  intros int cases H. unfold Edith3.main.
  now apply main_loop_well_formed.
Qed.

Lemma main_prints_one_answer_per_case_witness :
  Edith3.main (fun line => if (line =? Py.text_line "1")%string
                           then Some 1%Z else None)
    (flat_map Edith3.case_lines
       [(Py.text_line "1", [("dear", "dear")]);
        (Py.text_line "1", [("ab", "cd")])])
  = ([Py.text_line "Case 1: _unfitdear"; Py.text_line "Case 2: IMPOSSIBLE"],
     None).
Proof.
  apply (main_prints_one_answer_per_case
           (fun line => if (line =? Py.text_line "1")%string
                        then Some 1%Z else None)
           [(Py.text_line "1", [("dear", "dear")]);
            (Py.text_line "1", [("ab", "cd")])]).
  repeat constructor; try discriminate; vm_compute; auto.
Defined.

Section Turns.
Import Py Edith3.
Variable int : string -> option Z.

(** Turns beyond the number of lines of the input are never used. *)
Lemma main_loop_turns (t1 t2 case_number : nat) (stdin : list string) :
  List.length stdin <= t1 -> List.length stdin <= t2 ->
  main_loop int t1 case_number stdin = main_loop int t2 case_number stdin.
Proof.
  revert t2 case_number stdin.
  induction t1 as [|t1 IH]; intros t2 k stdin H1 H2.
  - destruct stdin; [|simpl in H1; lia]. destruct t2; reflexivity.
  - destruct stdin as [|line rest]; [destruct t2; reflexivity|].
    destruct t2 as [|t2]; [simpl in H2; lia|].
    cbn [main_loop]. destruct (int line) as [n|]; [|reflexivity].
    destruct (run_case n rest) as [e|[answer rest']] eqn:E; [reflexivity|].
    destruct (run_case_inr _ _ _ _ E) as (_ & _ & _ & ->).
    pose proof (length_skipn (Z.to_nat n) rest) as Hs.
    simpl in H1, H2.
    rewrite (IH t2); [reflexivity | lia | lia].
Qed.

Lemma main_loop_prefix (cases : list (string * list gene))
      (rest : list string) :
  Forall (well_formed int) cases ->
  forall turns case_number,
    List.length (flat_map case_lines cases ++ rest) <= turns ->
    main_loop int turns case_number (flat_map case_lines cases ++ rest)
    = (answers case_number cases
       ++ fst (main_loop int (List.length rest)
                         (case_number + List.length cases) rest),
       snd (main_loop int (List.length rest)
                      (case_number + List.length cases) rest)).
Proof.
  induction 1 as [|[count genes] cases (Hne & Hint & Hw) _ IH];
    intros turns k Hturns.
  - cbn [flat_map app answers List.length] in *. rewrite Nat.add_0_r.
    rewrite (main_loop_turns turns (List.length rest)) by lia.
    now destruct (main_loop int (List.length rest) k rest).
  - cbn [flat_map case_lines fst snd app] in *.
    rewrite <- app_assoc in *.
    destruct turns as [|turns]; [simpl in Hturns; lia|].
    cbn [main_loop]. rewrite Hint, (run_case_well_formed genes _ Hne Hw).
    rewrite IH.
    + cbn [answers snd List.length]. now rewrite Nat.add_succ_r.
    + simpl in Hturns. rewrite length_app in Hturns. lia.
Qed.

End Turns.

(** X14: an exception ends the script after the answers of the cases
    before it have been printed.  When well-formed cases are followed by
    a count line that [int] rejects, the script prints their answers and
    ends with ValueError; when they are followed by a case that raises
    an exception, it prints their answers and ends with that exception. *)
Theorem main_prints_before_it_fails :
  forall (int : string -> option Z)
         (cases : list (string * list Edith3.gene))
         (line : string) (rest : list string),
    Forall (Edith3.well_formed int) cases ->
    (int line = None ->
     Edith3.main int (flat_map Edith3.case_lines cases ++ line :: rest)
     = (Edith3.answers 0 cases, Some Py.ValueError))
    /\ (forall n e,
          int line = Some n -> Edith3.run_case n rest = inl e ->
          Edith3.main int (flat_map Edith3.case_lines cases ++ line :: rest)
          = (Edith3.answers 0 cases, Some e)).
Proof.
  intros int cases line rest H.
  assert (E : Edith3.main int (flat_map Edith3.case_lines cases ++ line :: rest)
              = (Edith3.answers 0 cases
                 ++ fst (Edith3.main_loop int (List.length (line :: rest))
                           (0 + List.length cases) (line :: rest)),
                 snd (Edith3.main_loop int (List.length (line :: rest))
                        (0 + List.length cases) (line :: rest)))).
  { unfold Edith3.main. now apply main_loop_prefix. }
  split.
  - intros Hint. rewrite E. cbn [List.length Edith3.main_loop].
    rewrite Hint. cbn [fst snd]. now rewrite app_nil_r.
  - intros n e Hint Hcase. rewrite E. cbn [List.length Edith3.main_loop].
    rewrite Hint, Hcase. cbn [fst snd]. now rewrite app_nil_r.
Qed.

Lemma main_prints_before_it_fails_witness :
  Edith3.main (fun line => if (line =? Py.text_line "1")%string
                           then Some 1%Z else None)
    (flat_map Edith3.case_lines [(Py.text_line "1", [("ab", "cd")])]
     ++ [Py.text_line "x"])
  = ([Py.text_line "Case 1: IMPOSSIBLE"], Some Py.ValueError)
  /\ Edith3.main (fun line => if (line =? Py.text_line "1")%string
                              then Some 1%Z else None)
       (flat_map Edith3.case_lines [(Py.text_line "1", [("ab", "cd")])]
        ++ [Py.text_line "1"])
     = ([Py.text_line "Case 1: IMPOSSIBLE"], Some Py.StopIteration).
Proof.
  assert (W : Forall (Edith3.well_formed
                        (fun line => if (line =? Py.text_line "1")%string
                                     then Some 1%Z else None))
                     [(Py.text_line "1", [("ab", "cd")])]).
  { repeat constructor; try discriminate; vm_compute; auto. }
  split.
  - apply (main_prints_before_it_fails _ _ (Py.text_line "x") [] W).
    reflexivity.
  - apply (proj2 (main_prints_before_it_fails _ _ (Py.text_line "1") [] W)
             1%Z Py.StopIteration); reflexivity.
Defined.

Section SelfEqualRow.
Import Py Edith.




End SelfEqualRow.



(** X16: for a case of one gene whose two words are the same word, not
    empty, the answer of edith3.py after one age or more is "_unfit"
    followed by the word, and IMPOSSIBLE when the word has more than
    sixty characters, ten times the six of "_unfit". *)
Theorem single_self_equal_gene_answer :
  forall (w : string) (n : nat),
    w <> "" ->
    Edith3.solve [(w, w)] (S n)
    = if (60 <? Py.len w)%nat then Edith3.IMPOSSIBLE
      else (Edith3.UNFIT ++ w)%string.
Proof. intros w n Hw. now apply edith3_self_equal_pair. Qed.

Lemma single_self_equal_gene_answer_witness :
  Edith3.solve [("dear", "dear")] 8 = "_unfitdear".
Proof.
  apply (single_self_equal_gene_answer "dear" 7). discriminate.
Defined.
